(** * webserver/feed_server.py: show resolver, slug normaliser, redirect store

    A shallow embedding of the podcast feed web server.  Python values are
    modelled as follows.

    - [str] is [string]; a character is one of the code points U+0000 to
      U+00FF (the 8-bit [ascii] type read as Latin-1).  On that range the
      tables of [str.lower], [str.strip], [int] and of the regular-expression
      classes [\w] and [\d] are written out below; code points above U+00FF
      are outside the model.
    - [int] is [Z].
    - A raised exception is a value of [exn]; a computation that may raise
      returns a [result].
    - The SQLite file is a record of two tables, each a list of rows in
      insertion order, with the PRIMARY KEY and UNIQUE constraints of the
      schema checked by [sql_insert]. *)

From stdpp Require Import gmap strings list.
From Stdlib Require Import ZArith NArith Ascii String.

Local Open Scope string_scope.
Local Open Scope Z_scope.
Local Open Scope list_scope.

(** ** Python runtime: exceptions and dynamic values *)

(** The exception classes that occur in the module.  [HTTPException n] is
    what flask's [abort(n)] raises, and [RecursionError] what the
    interpreter raises when nested calls exceed its recursion limit. *)
Inductive exn : Type :=
  | ValueError
  | KeyError
  | AttributeError
  | RuntimeError
  | NoSuchShowError
  | IntegrityError
  | HTTPException (status : Z)
  | RecursionError.

Inductive result (A : Type) : Type :=
  | Ok (a : A)
  | Raise (e : exn).
Arguments Ok {A} a.
Arguments Raise {A} e.

#[global] Instance exn_eq_dec : EqDecision exn.
Proof. solve_decision. Defined.

(** A show token is whatever reaches [find_show] as [show]: the text of a
    URL segment, or a value of [settings.SHOW_CUSTOM_URL], which may be an
    integer id or again a name. *)
Inductive pyval : Type :=
  | PyStr (s : string)
  | PyInt (z : Z).

(** ** Python runtime: text *)

Definition ord (c : ascii) : N := N_of_ascii c.

Definition between (lo hi : N) (c : ascii) : bool :=
  ((lo <=? ord c) && (ord c <=? hi))%N.

(** [str.lower] on one code point: A-Z, and the Latin-1 capitals U+00C0 to
    U+00DE without the multiplication sign U+00D7, move up by 32. *)
Definition is_upper (c : ascii) : bool :=
  between 65 90 c || between 192 214 c || between 216 222 c.

Definition lower_char (c : ascii) : ascii :=
  if is_upper c then ascii_of_N (ord c + 32) else c.

Fixpoint lower (s : string) : string :=
  match s with
  | EmptyString => EmptyString
  | String c s' => String (lower_char c) (lower s')
  end.

(** [str.isalnum] on one code point: letters, and the decimal, digit and
    numeric characters (the superscripts and vulgar fractions of Latin-1
    included). *)
Definition is_alnum (c : ascii) : bool :=
  between 48 57 c || between 65 90 c || between 97 122 c
  || between 170 170 c || between 178 179 c || between 181 181 c
  || between 185 186 c || between 188 190 c
  || between 192 214 c || between 216 246 c || between 248 255 c.

(** [\d] of a [str] pattern: the decimal digits. *)
Definition is_decimal (c : ascii) : bool := between 48 57 c.

(** [\w] of a [str] pattern: alphanumeric or underscore. *)
Definition is_word (c : ascii) : bool := is_alnum c || between 95 95 c.

(** [str.isspace] on one code point, the set [str.strip()] removes. *)
Definition is_space (c : ascii) : bool :=
  between 9 13 c || between 28 32 c || between 133 133 c || between 160 160 c.

Fixpoint lstrip (sp : ascii -> bool) (s : string) : string :=
  match s with
  | EmptyString => EmptyString
  | String c s' => if sp c then lstrip sp s' else s
  end.

Fixpoint rstrip (sp : ascii -> bool) (s : string) : string :=
  match s with
  | EmptyString => EmptyString
  | String c s' =>
      match rstrip sp s' with
      | EmptyString => if sp c then EmptyString else String c EmptyString
      | r => String c r
      end
  end.

Definition strip (s : string) : string := rstrip is_space (lstrip is_space s).

(** [pattern.sub("", s)] for a pattern that is a single character class:
    every matching character is deleted. *)
Fixpoint re_sub_empty (pattern : ascii -> bool) (s : string) : string :=
  match s with
  | EmptyString => EmptyString
  | String c s' =>
      if pattern c then re_sub_empty pattern s'
      else String c (re_sub_empty pattern s')
  end.

(** *** [int(x)]

    For a [str]: surrounding whitespace is dropped (tab to carriage return,
    space, U+0085, U+00A0), then an optional sign, then decimal digits in
    which a single underscore may stand between two digits.  Anything else is
    [ValueError], here [None].  For an [int] the value itself.  (The
    interpreter's optional cap on the number of digits is not modelled.) *)
Definition is_int_space (c : ascii) : bool :=
  between 9 13 c || between 32 32 c || between 133 133 c || between 160 160 c.

Definition digit_value (c : ascii) : Z := Z.of_N (ord c) - 48.

Fixpoint parse_digits (acc : Z) (after_digit : bool) (s : string) : option Z :=
  match s with
  | EmptyString => if after_digit then Some acc else None
  | String c s' =>
      if is_decimal c then parse_digits (10 * acc + digit_value c) true s'
      else if between 95 95 c && after_digit then parse_digits acc false s'
      else None
  end.

Definition int_of_str (s : string) : option Z :=
  match rstrip is_int_space (lstrip is_int_space s) with
  | String "+" ds => parse_digits 0 false ds
  | String "-" ds => Z.opp <$> parse_digits 0 false ds
  | ds => parse_digits 0 false ds
  end.

Definition int (x : pyval) : option Z :=
  match x with
  | PyStr s => int_of_str s
  | PyInt z => Some z
  end.

(** ** Slug normaliser *)

(** [remove_non_word = re.compile(r"[^\w\d]|_")]: a character that is neither
    a word character nor a digit, or an underscore. *)
Definition remove_non_word (c : ascii) : bool :=
  negb (is_word c || is_decimal c) || between 95 95 c.

Definition get_readable_slug_from (show_name : string) : string :=
  re_sub_empty remove_non_word (lower show_name).


(** ** Data model *)

Record Show : Type := { show_id : Z; title : string }.

Record Episode : Type := { show : Show; sound_url : string }.

Definition get_feed_slug (sh : Show) : string :=
  get_readable_slug_from (title sh).

(** *** The [generator] package and [settings]

    Both are imported by the module and are not part of it.  They enter the
    model as data: a generator is its show catalog, a [dict] from show id to
    [Show], and its name index, which answers with an id or raises. *)
Record ShowSource : Type := { shows : gmap Z Show }.

Record PodcastFeedGenerator : Type := {
  show_source : ShowSource;
  get_show_id_by_name : pyval -> result Z
}.

(** [settings.SHOW_CUSTOM_URL] is a [dict]; [items()] lists it in insertion
    order, so it is kept as the list of its items. *)
Record Settings : Type := {
  SHOW_CUSTOM_URL : list (string * pyval);
  BASE_URL : string;
  OFFICIAL_WEBSITE : string
}.

(** What the module sees of the [generator] package during one request:
    [PodcastFeedGenerator_quiet n] is the object the [n]-th evaluation of
    [PodcastFeedGenerator(quiet=True)] yields, and
    [NoSuchShowError_is_ValueError] tells whether the class
    [NoSuchShowError] derives from [ValueError]. *)
Record GeneratorPackage : Type := {
  PodcastFeedGenerator_quiet : nat -> PodcastFeedGenerator;
  NoSuchShowError_is_ValueError : bool
}.

(** [d[k]] on a [dict] keyed by show id: the value, or [KeyError]. *)
Definition subscript (d : gmap Z Show) (k : option Z) : result Show :=
  match k ≫= (d !!.) with
  | Some v => Ok v
  | None => Raise KeyError
  end.

(** Truth value of [show_id], which is [None] or an [int]. *)
Definition truthy (show_id : option Z) : bool :=
  match show_id with
  | None => false
  | Some z => negb (z =? 0)
  end.

(** ** Show resolver *)

Definition MAX_RECURSION_DEPTH : nat := 20.

(** The [for ... in settings.SHOW_CUSTOM_URL.items()] loop: the value of the
    first item whose lower-cased key equals [show]. *)
Definition custom_url_lookup (items : list (string * pyval)) (show : string)
  : option pyval :=
  snd <$> find (fun item => String.eqb (lower (fst item)) show) items.

(** [find_show(gen, show, strict, recursion_depth)].  The recursion of the
    source is not structural: [fuel] bounds the number of nested calls, and
    [None] means that this bound was hit.  [new_gen d] is the generator that
    [PodcastFeedGenerator(quiet=True)] yields when the call at depth [d]
    constructs one. *)
Fixpoint find_show (fuel : nat) (st : Settings)
    (new_gen : nat -> PodcastFeedGenerator)
    (gen : PodcastFeedGenerator) (show : pyval) (strict : bool)
    (recursion_depth : nat) : option (result Show) :=
  match fuel with
  | O => None
  | S fuel' =>
      if (MAX_RECURSION_DEPTH <=? recursion_depth)%nat
      then Some (Raise RuntimeError)
      else
        let show_id := if strict then None else int show in
        if negb (truthy show_id)
        then
          match get_show_id_by_name gen show with
          | Ok show_id =>
              Some (subscript (shows (show_source gen)) (Some show_id))
          | Raise KeyError | Raise NoSuchShowError =>
              let gen := new_gen recursion_depth in
              match show with
              | PyInt _ => Some (Raise AttributeError)
              | PyStr s =>
                  let show := lower (strip s) in
                  match custom_url_lookup (SHOW_CUSTOM_URL st) show with
                  | Some show_id =>
                      find_show fuel' st new_gen gen show_id false
                        (S recursion_depth)
                  | None => Some (Raise NoSuchShowError)
                  end
              end
          | Raise e => Some (Raise e)
          end
        else Some (subscript (shows (show_source gen)) show_id)
  end.

(** ** Redirect store *)

(** A row of [sound] or [article]: the columns [original] and [proxy]. *)
Record Row : Type := { original : string; proxy : string }.

Abbreviation Table := (list Row).

(** The database file [settings.REDIRECT_DB_FILE]. *)
Record DB : Type := { sound : Table; article : Table }.

(** [SELECT proxy FROM t WHERE original=?] followed by [fetchone()]. *)
Definition select_proxy (t : Table) (original_url : string) : option string :=
  proxy <$> find (fun r => String.eqb (original r) original_url) t.

(** [SELECT original FROM t WHERE proxy=?] followed by [fetchone()]. *)
Definition select_original (t : Table) (code : string) : option string :=
  original <$> find (fun r => String.eqb (proxy r) code) t.

(** [INSERT INTO t (original, proxy) VALUES (?, ?)] under the schema
    [(original text primary key, proxy text unique)]: the statement fails
    with [sqlite3.IntegrityError] when a row has the same [original] or the
    same [proxy]. *)
Definition sql_insert (t : Table) (original_url new_uri : string)
  : result Table :=
  if existsb (fun r => String.eqb (original r) original_url) t
     || existsb (fun r => String.eqb (proxy r) new_uri) t
  then Raise IntegrityError
  else Ok (t ++ [{| original := original_url; proxy := new_uri |}]).

(** [init_db]: [CREATE TABLE IF NOT EXISTS] for both tables.  [None] is a
    database file without tables. *)
Definition init_db (file : option DB) : DB :=
  match file with
  | Some db => db
  | None => {| sound := []; article := [] |}
  end.

(** The value [settings.BASE_URL + url_for(endpoint, show=.., <arg>=..)],
    kept as its parts (flask renders the path from the route rule). *)
Inductive Endpoint : Type := redirect_episode_rule | redirect_article_rule.

Record ProxyUrl : Type := {
  url_base : string;
  url_endpoint : Endpoint;
  url_show : string;
  url_code : string
}.

Definition proxy_url (st : Settings) (rule : Endpoint) (sh : Show)
    (code : string) : ProxyUrl :=
  {| url_base := BASE_URL st; url_endpoint := rule;
     url_show := get_feed_slug sh; url_code := code |}.

Definition get_original_sound (db : DB) (sh : Show) (episode : string)
  : result string :=
  match select_original (sound db) episode with
  | None => Raise (HTTPException 404)
  | Some row0 => Ok row0
  end.

Definition get_original_article (db : DB) (sh : Show) (article_code : string)
  : result string :=
  match select_original (article db) article_code with
  | None => Raise (HTTPException 404)
  | Some row0 => Ok row0
  end.

(** [get_redirect_sound(original_url, episode)].  [new_uri] is the value
    that [shortuuid.uuid()] returns if it is called.  The result is the
    returned value or the raised exception, and the database after the
    [with] block (committed on return, rolled back on an exception). *)
Definition get_redirect_sound (st : Settings) (new_uri : string) (db : DB)
    (original_url : string) (episode : Episode) : result ProxyUrl * DB :=
  let sh := show episode in
  match select_proxy (sound db) original_url with
  | Some row0 => (Ok (proxy_url st redirect_episode_rule sh row0), db)
  | None =>
      match sql_insert (sound db) original_url new_uri with
      | Ok t =>
          (Ok (proxy_url st redirect_episode_rule sh new_uri),
           {| sound := t; article := article db |})
      | Raise e => (Raise e, db)
      end
  end.

(** [get_redirect_article(original_url, episode)].  [uuid n] is the value
    of the [n]-th call of [shortuuid.uuid()].  The retry is a recursive call
    that the source does not bound: [fuel] is the number of nested calls
    allowed, and [None] means that they are used up with the retry still
    going on.  [get_redirect_article_limited] below says what the
    interpreter does then. *)
Fixpoint get_redirect_article (fuel : nat) (st : Settings)
    (uuid : nat -> string) (db : DB)
    (original_url : string) (episode : Episode)
  : option (result ProxyUrl * DB) :=
  match fuel with
  | O => None
  | S fuel' =>
      let sh := show episode in
      match select_proxy (article db) original_url with
      | Some row0 => Some (Ok (proxy_url st redirect_article_rule sh row0), db)
      | None =>
          let new_uri := uuid O in
          match sql_insert (article db) original_url new_uri with
          | Ok t =>
              Some (Ok (proxy_url st redirect_article_rule sh new_uri),
                    {| sound := sound db; article := t |})
          | Raise IntegrityError =>
              get_redirect_article fuel' st (fun n => uuid (S n)) db
                original_url episode
          | Raise e => Some (Raise e, db)
          end
      end
  end.

(** The retry of [get_redirect_article] under the interpreter.  The nested
    calls are Python frames: when [limit] of them are open and yet another
    retry is due, the interpreter raises [RecursionError].  No handler of
    the function catches it, every open [with] block rolls back, and the
    caller receives the exception with the database as it was.  [limit] is
    the number of nested calls of the function that the recursion limit
    leaves room for (with the default limit of 1000, somewhat under
    1000). *)
Definition get_redirect_article_limited (limit : nat) (st : Settings)
    (uuid : nat -> string) (db : DB)
    (original_url : string) (episode : Episode) : result ProxyUrl * DB :=
  match get_redirect_article limit st uuid db original_url episode with
  | Some outcome => outcome
  | None => (Raise RecursionError, db)
  end.

(** ** HTTP surface *)

(** A response.  [Redirect location status] is the response that flask's
    [redirect(location, status)] builds, named by the arguments of that
    call: the Location header the client receives is flask's rendering of
    [location], which percent-encodes the characters a URL cannot hold.
    [ErrorPage] is an error page, and [FeedUrl] the text of
    [url_for("output_feed", show_name=.., _external=True)], kept as the
    [show_name] it is built from. *)
Inductive Response : Type :=
  | Redirect (location : string) (status : Z)
  | ErrorPage (status : Z)
  | FeedUrl (show_name : string).

(** [isinstance(e, ValueError)]. *)
Definition is_ValueError (g : GeneratorPackage) (e : exn) : bool :=
  match e with
  | ValueError => true
  | NoSuchShowError => NoSuchShowError_is_ValueError g
  | _ => false
  end.

(** [isinstance(e, NoSuchShowError)]. *)
Definition is_NoSuchShowError (e : exn) : bool :=
  match e with
  | NoSuchShowError => true
  | _ => false
  end.

(** [try: body  except <class>: handler]. *)
Definition try_except {A : Type} (body : result A) (catches : exn -> bool)
    (handler : result A) : result A :=
  match body with
  | Ok a => Ok a
  | Raise e => if catches e then handler else Raise e
  end.

Definition abort {A : Type} (status : Z) : result A :=
  Raise (HTTPException status).

(** What flask makes of a view function's outcome: the returned response,
    the error page of an [HTTPException], or 500 for any other exception. *)
Definition dispatch (outcome : result Response) : Response :=
  match outcome with
  | Ok r => r
  | Raise (HTTPException status) => ErrorPage status
  | Raise _ => ErrorPage 500
  end.

(** The view functions call [find_show] with the generator of the first
    [PodcastFeedGenerator(quiet=True)] of the request; the later ones are
    those [find_show] constructs. *)
Definition find_show_in_view (fuel : nat) (st : Settings) (g : GeneratorPackage)
    (show : pyval) (strict : bool) : option (result Show) :=
  find_show fuel st (fun d => PodcastFeedGenerator_quiet g (S d))
    (PodcastFeedGenerator_quiet g O) show strict O.

Definition redirect_homepage (st : Settings) : result Response :=
  Ok (Redirect (OFFICIAL_WEBSITE st) 302).

Definition url_for_feed (sh : Show) : Response := FeedUrl (get_feed_slug sh).

Definition api_url_show (fuel : nat) (st : Settings) (g : GeneratorPackage)
    (show : string) : option (result Response) :=
  found ← find_show_in_view fuel st g (PyStr show) false;
  Some (try_except
          match found with
          | Ok sh => Ok (url_for_feed sh)
          | Raise e => Raise e
          end
          is_NoSuchShowError (abort 404)).

Definition redirect_episode (fuel : nat) (st : Settings) (g : GeneratorPackage)
    (db : DB) (show episode : string) : option (result Response) :=
  found ← find_show_in_view fuel st g (PyStr show) true;
  Some (try_except
          match found with
          | Ok sh =>
              match get_original_sound db sh episode with
              | Ok url => Ok (Redirect url 302)
              | Raise e => Raise e
              end
          | Raise e => Raise e
          end
          (is_ValueError g) (abort 404)).

Definition redirect_article (fuel : nat) (st : Settings) (g : GeneratorPackage)
    (db : DB) (show article_code : string) : option (result Response) :=
  found ← find_show_in_view fuel st g (PyStr show) true;
  Some (try_except
          match found with
          | Ok sh =>
              match get_original_article db sh article_code with
              | Ok url => Ok (Redirect url 302)
              | Raise e => Raise e
              end
          | Raise e => Raise e
          end
          (is_ValueError g) (abort 404)).

(** ** Concurrent calls of the redirect hooks

    Requests run in parallel against the one database file.  A call of a
    hook is a small program of two statements, the SELECT and the INSERT;
    each statement is atomic and other calls may run between the two.  The
    INSERT stands for the statement together with the commit at the end of
    the [with] block.  Time is not part of the model: a writer that holds
    the database lock longer than the time-out of another connection makes
    SQLite fail that connection's statement with [OperationalError], and no
    schedule here does that. *)

Inductive LinkKind : Type := sound_link | article_link.

#[global] Instance LinkKind_eq_dec : EqDecision LinkKind.
Proof. solve_decision. Defined.

Inductive Pc : Type :=
  | at_select
  | at_insert
  | returned (value : ProxyUrl)
  | raised (e : exn).

Record Call : Type := {
  call_kind : LinkKind;
  call_original : string;
  call_episode : Episode;
  call_pc : Pc
}.

Definition with_pc (c : Call) (pc : Pc) : Call :=
  {| call_kind := call_kind c; call_original := call_original c;
     call_episode := call_episode c; call_pc := pc |}.

Definition table_of (k : LinkKind) (db : DB) : Table :=
  match k with sound_link => sound db | article_link => article db end.

Definition set_table (k : LinkKind) (t : Table) (db : DB) : DB :=
  match k with
  | sound_link => {| sound := t; article := article db |}
  | article_link => {| sound := sound db; article := t |}
  end.

Definition rule_of (k : LinkKind) : Endpoint :=
  match k with
  | sound_link => redirect_episode_rule
  | article_link => redirect_article_rule
  end.

(** One statement of a call.  [new_uri] is what [shortuuid.uuid()] returns
    at this moment.  After a failed INSERT [get_redirect_sound] lets the
    exception escape; [get_redirect_article] catches
    [sqlite3.IntegrityError] and starts again at the SELECT. *)
Definition call_step (st : Settings) (new_uri : string) (c : Call) (db : DB)
  : Call * DB :=
  let k := call_kind c in
  let sh := show (call_episode c) in
  match call_pc c with
  | at_select =>
      match select_proxy (table_of k db) (call_original c) with
      | Some row0 => (with_pc c (returned (proxy_url st (rule_of k) sh row0)), db)
      | None => (with_pc c at_insert, db)
      end
  | at_insert =>
      match sql_insert (table_of k db) (call_original c) new_uri with
      | Ok t =>
          (with_pc c (returned (proxy_url st (rule_of k) sh new_uri)),
           set_table k t db)
      | Raise e =>
          match k, e with
          | article_link, IntegrityError => (with_pc c at_select, db)
          | _, _ => (with_pc c (raised e), db)
          end
      end
  | returned _ | raised _ => (c, db)
  end.

Record System : Type := { sys_db : DB; sys_calls : list Call }.

(** A schedule names, step by step, the call that runs its next statement
    and the identifier [shortuuid.uuid()] would hand out then. *)
Definition Schedule : Type := list (nat * string).

Definition sched_step (st : Settings) (s : System) (ev : nat * string)
  : System :=
  match sys_calls s !! fst ev with
  | None => s
  | Some c =>
      let (c', db') := call_step st (snd ev) c (sys_db s) in
      {| sys_db := db'; sys_calls := <[fst ev := c']> (sys_calls s) |}
  end.

Definition run (st : Settings) (sched : Schedule) (s : System) : System :=
  fold_left (sched_step st) sched s.

Definition new_call (k : LinkKind) (original_url : string) (ep : Episode)
  : Call :=
  {| call_kind := k; call_original := original_url; call_episode := ep;
     call_pc := at_select |}.

(** The schema constraints as a property of a table. *)
Definition table_unique (t : Table) : Prop :=
  NoDup (original <$> t) /\ NoDup (proxy <$> t).

Definition db_unique (db : DB) : Prop :=
  table_unique (sound db) /\ table_unique (article db).

Definition rows_for (t : Table) (original_url : string) : list Row :=
  filter (fun r => original r = original_url) t.

(** ** Vocabulary of the statements *)

Fixpoint string_forall (p : ascii -> bool) (s : string) : bool :=
  match s with
  | EmptyString => true
  | String c s' => p c && string_forall p s'
  end.

(** A letter or digit that is not an upper-case letter. *)
Definition lower_alnum (c : ascii) : bool := is_alnum c && negb (is_upper c).

(** Latin-1 capitals written by code point: AE, O with stroke, A with ring. *)
Definition AE_O_A_caps : string :=
  String "198"%char (String "216"%char (String "197"%char EmptyString)).

Definition ae_o_a_small : string :=
  String "230"%char (String "248"%char (String "229"%char EmptyString)).

(** How a call that ran to its end shows in the scheduler. *)
Definition outcome_pc (r : result ProxyUrl) : Pc :=
  match r with
  | Ok v => returned v
  | Raise e => raised e
  end.

(** Every call that has returned returned the code of a stored row for its
    original. *)
Definition returned_rows_stored (s : System) : Prop :=
  forall i c v,
    sys_calls s !! i = Some c -> call_pc c = returned v ->
    {| original := call_original c; proxy := url_code v |}
      ∈ table_of (call_kind c) (sys_db s).

Definition no_article_raised (s : System) : Prop :=
  forall i c e,
    sys_calls s !! i = Some c -> call_kind c = article_link ->
    call_pc c <> raised e.

Definition system_ok (s : System) : Prop :=
  db_unique (sys_db s) /\ returned_rows_stored s /\ no_article_raised s.

(** *** Sample catalogs and settings *)

Definition daily_news : Show := {| show_id := 1; title := "Daily News" |}.

Definition show_zero : Show := {| show_id := 0; title := "Zero Hour" |}.

(** A generator over the catalog [{1: Daily News, 0: Zero Hour}] whose name
    index knows the two titles. *)
Definition sample_gen : PodcastFeedGenerator :=
  {| show_source := {| shows := {[ 1 := daily_news; 0 := show_zero ]} |};
     get_show_id_by_name := fun name =>
       match name with
       | PyStr s =>
           if String.eqb s "Daily News" then Ok 1
           else if String.eqb s "Zero Hour" then Ok 0
           else Raise NoSuchShowError
       | PyInt _ => Raise AttributeError
       end |}.

Definition sample_settings : Settings :=
  {| SHOW_CUSTOM_URL := [("dailynews-old", PyInt 1)];
     BASE_URL := "http://podkast.example";
     OFFICIAL_WEBSITE := "http://example.org" |}.

(** An alias map that leads back to itself: "a" names "b", "B" names "a". *)
Definition cyclic_settings : Settings :=
  {| SHOW_CUSTOM_URL := [("a", PyStr "b"); ("B", PyStr "a")];
     BASE_URL := "http://podkast.example";
     OFFICIAL_WEBSITE := "http://example.org" |}.

(** The class [NoSuchShowError] is declared in the [generator] package.
    The module does not show its base class, so both declarations are kept:
    in [sample_generator] it is a class of its own, next to [ValueError],
    and in [sample_generator_value_error] it derives from [ValueError]. *)
Definition sample_generator : GeneratorPackage :=
  {| PodcastFeedGenerator_quiet := fun _ => sample_gen;
     NoSuchShowError_is_ValueError := false |}.

Definition sample_generator_value_error : GeneratorPackage :=
  {| PodcastFeedGenerator_quiet := fun _ => sample_gen;
     NoSuchShowError_is_ValueError := true |}.

Definition sample_db : DB :=
  {| sound := [{| original := "http://x/1.mp3"; proxy := "abc" |}];
     article := [{| original := "http://x/1.html"; proxy := "abc" |}] |}.

Definition sample_episode : Episode :=
  {| show := daily_news; sound_url := "http://x/2.mp3" |}.

(** [shortuuid.uuid()] handing out a code that is taken, then a new one. *)
Definition colliding_uuid (n : nat) : string :=
  match n with
  | O => "abc"
  | S _ => "abd"
  end.

(** Two calls for the same original: both run the SELECT and miss, then
    both run the INSERT. *)
Definition lost_race : Schedule :=
  [(0%nat, "c1"); (1%nat, "c2"); (0%nat, "c1"); (1%nat, "c2")].

(** Three calls for the same original, all past the SELECT before the
    first INSERT. *)
Definition three_way_race : Schedule :=
  [(0%nat, "c1"); (1%nat, "c2"); (2%nat, "c3");
   (0%nat, "c1"); (1%nat, "c2"); (2%nat, "c3")].

Definition calls_for (k : LinkKind) (n : nat) (original_url : string)
  : list Call :=
  replicate n (new_call k original_url sample_episode).

Definition empty_db : DB := init_db None.

(** ** The remaining views *)

(** [api_slug_name(show_name)]: the feed URL predicted from a free-text
    name, without looking the show up. *)
Definition api_slug_name (show_name : string) : result Response :=
  Ok (FeedUrl (get_readable_slug_from show_name)).

(** [s.replace(old, new, 1)] for a one-character [old]: the first
    occurrence is replaced, the rest of the text is kept. *)
Fixpoint replace_first (old : ascii) (new : string) (s : string) : string :=
  match s with
  | EmptyString => EmptyString
  | String c s' =>
      if Ascii.eqb c old then String.append new s'
      else String c (replace_first old new s')
  end.

Definition newline : ascii := "010"%char.

Definition double_quote : string := String "034"%char EmptyString.

(** The text that [output_feed] puts in place of the first line break.
    [style_href] is the value of [url_for('static', filename="style.xsl")]. *)
Definition stylesheet_instruction (style_href : string) : string :=
  String newline
    ("<?xml-stylesheet type=" +:+ double_quote +:+ "text/xsl" +:+ double_quote
     +:+ " href=" +:+ double_quote +:+ style_href +:+ double_quote +:+ "?>"
     +:+ String newline EmptyString).

(** The response [output_feed] builds with [make_response]. *)
Record FeedPage : Type := {
  page_body : string;
  page_content_type : string;
  page_max_age : Z;
  page_public : bool
}.

(** What [output_feed] returns: the redirect to [url_for_feed(show)], kept as
    the [show_name] of that URL, or the feed page. *)
Inductive FeedResult : Type :=
  | FeedRedirect (show_name : string) (status : Z)
  | FeedOk (page : FeedPage).

(** [output_feed(show_name)].  [pretty] is the generator of
    [PodcastFeedGenerator(quiet=True, pretty_xml=True)], and [generate_feed]
    its method of that name followed by [.decode("utf-8")]; the generators
    that [find_show] constructs are those of the package. *)
Definition output_feed (fuel : nat) (st : Settings) (g : GeneratorPackage)
    (pretty : PodcastFeedGenerator) (generate_feed : Z -> result string)
    (style_href : string) (show_name : string)
  : option (result FeedResult) :=
  found ← find_show fuel st (PodcastFeedGenerator_quiet g) pretty
            (PyStr show_name) true O;
  Some
    match found with
    | Raise e => if is_NoSuchShowError e then abort 404 else Raise e
    | Ok sh =>
        if negb (String.eqb show_name (get_feed_slug sh))
        then Ok (FeedRedirect (get_feed_slug sh) 302)
        else
          match generate_feed (show_id sh) with
          | Raise e => Raise e
          | Ok feed =>
              Ok (FeedOk
                    {| page_body :=
                         replace_first newline
                           (stylesheet_instruction style_href) feed;
                       page_content_type := "application/xml";
                       page_max_age := 60 * 60;
                       page_public := true |})
          end
    end.

(** ** Vocabulary of the further statements *)

(** A character a slug can hold: a letter or digit that [lower] leaves as
    it is, which excludes whitespace and the underscore. *)
Definition kept_char (c : ascii) : bool :=
  is_alnum c && Ascii.eqb (lower_char c) c && negb (is_space c)
  && negb (between 95 95 c).

Fixpoint string_exists (p : ascii -> bool) (s : string) : bool :=
  match s with
  | EmptyString => false
  | String c s' => p c || string_exists p s'
  end.

(** The exceptions of the name index that [find_show] handles. *)
Definition name_index_miss (r : result Z) : Prop :=
  match r with
  | Ok _ => True
  | Raise e => e = KeyError \/ e = NoSuchShowError
  end.

(** The exceptions [find_show] raises on its own account. *)
Definition find_show_exn (e : exn) : Prop :=
  e = RuntimeError \/ e = KeyError \/ e = NoSuchShowError
  \/ e = AttributeError.

(** A generator that knows the show 7 by id and by no name. *)
Definition other_gen : PodcastFeedGenerator :=
  {| show_source :=
       {| shows := {[ 7 := {| show_id := 7; title := "Seven Up" |} ]} |};
     get_show_id_by_name := fun _ => Raise KeyError |}.

Definition alias_settings : Settings :=
  {| SHOW_CUSTOM_URL := [("Old-Seven", PyInt 7); ("nil", PyInt 0)];
     BASE_URL := "http://podkast.example";
     OFFICIAL_WEBSITE := "http://example.org" |}.

(** The names "a", "aa", "aaa", ... and an alias map that chains them:
    the name of [n + 1] letters is an alias of the name of [n + 2] letters,
    up to the last, which is an alias of [target]. *)
Fixpoint a_name (n : nat) : string :=
  match n with
  | O => "a"
  | S n' => String "a" (a_name n')
  end.

Definition alias_chain (n : nat) (target : pyval) : list (string * pyval) :=
  map (fun i => (a_name i, PyStr (a_name (S i)))) (seq 0 n)
  ++ [(a_name n, target)].

Definition chain_settings (n : nat) : Settings :=
  {| SHOW_CUSTOM_URL := alias_chain n (PyInt 7);
     BASE_URL := "http://podkast.example";
     OFFICIAL_WEBSITE := "http://example.org" |}.

(** Two calls for different originals on one table; the second is first
    handed the code the first has stored, then a new one. *)
Definition two_originals : list Call :=
  [new_call article_link "http://x/1.html" sample_episode;
   new_call article_link "http://x/2.html" sample_episode].

Definition second_collides : Schedule :=
  [(0%nat, "c1"); (0%nat, "c1"); (1%nat, "c1"); (1%nat, "c1");
   (1%nat, "c2"); (1%nat, "c2")].

Definition sample_feed (id : Z) : result string :=
  Ok ("<?xml version='1.0'?>" +:+ String newline "<rss></rss>").

(** A generator over the sample catalog whose name index compares slugs. *)
Definition slug_gen : PodcastFeedGenerator :=
  {| show_source := show_source sample_gen;
     get_show_id_by_name := fun name =>
       match name with
       | PyStr s =>
           if String.eqb (get_readable_slug_from s) "dailynews" then Ok 1
           else Raise NoSuchShowError
       | PyInt _ => Raise AttributeError
       end |}.

(** * Properties *)

(** ** Slug normaliser *)

Ltac each_char c := destruct c as [[] [] [] [] [] [] [] []]; reflexivity.

Lemma lower_char_not_upper (c : ascii) : is_upper (lower_char c) = false.
Proof. each_char c. Qed.

Lemma lower_char_fixed (c : ascii) : is_upper c = false -> lower_char c = c.
Proof. unfold lower_char. intros ->. reflexivity. Qed.

Lemma kept_is_alnum (c : ascii) : remove_non_word c = negb (is_alnum c).
Proof. each_char c. Qed.

Lemma kept_lower_alnum (c : ascii) :
  remove_non_word (lower_char c) = false -> lower_alnum (lower_char c) = true.
Proof.
  rewrite kept_is_alnum. unfold lower_alnum.
  rewrite lower_char_not_upper. destruct (is_alnum (lower_char c)); auto.
Qed.

Lemma slug_keeps_lower_alnum (s : string) :
  string_forall lower_alnum (get_readable_slug_from s) = true.
Proof.
  unfold get_readable_slug_from.
  induction s as [|c s IH]; simpl; [reflexivity|].
  destruct (remove_non_word (lower_char c)) eqn:E; [exact IH|].
  simpl. rewrite (kept_lower_alnum c E). exact IH.
Qed.

Lemma slug_fixed_point (s : string) :
  string_forall lower_alnum s = true -> get_readable_slug_from s = s.
Proof.
  unfold get_readable_slug_from.
  induction s as [|c s IH]; simpl; [reflexivity|].
  intros [Hc Hs]%andb_prop. unfold lower_alnum in Hc.
  apply andb_prop in Hc as [Ha Hu]. apply negb_true_iff in Hu.
  rewrite (lower_char_fixed c Hu), kept_is_alnum, Ha. simpl.
  f_equal. exact (IH Hs).
Qed.

(** C8.  The slug function is idempotent, every string made only of
    lower-case letters and of digits is a fixed point of it, and
    slug("My Show!") = slug("MY SHOW") = "myshow". *)
Theorem slug_idempotent :
  (forall s, get_readable_slug_from (get_readable_slug_from s)
             = get_readable_slug_from s)
  /\ (forall s, string_forall lower_alnum s = true ->
                get_readable_slug_from s = s)
  /\ get_readable_slug_from "My Show!" = "myshow"
  /\ get_readable_slug_from "MY SHOW" = "myshow".
Proof.
  split; [|split; [|split]].
  - intros s. apply slug_fixed_point, slug_keeps_lower_alnum.
  - exact slug_fixed_point.
  - reflexivity.
  - reflexivity.
Qed.

Lemma slug_idempotent_witness :
  get_readable_slug_from (get_readable_slug_from ("Rock & " +:+ AE_O_A_caps))
  = get_readable_slug_from ("Rock & " +:+ AE_O_A_caps)
  /\ get_readable_slug_from ("rock" +:+ ae_o_a_small +:+ "2")
     = "rock" +:+ ae_o_a_small +:+ "2".
Proof.
  destruct slug_idempotent as (Hidem & Hfix & _).
  split; [apply Hidem | apply Hfix; reflexivity].
Defined.

Example slug_latin1 :
  get_readable_slug_from ("Rock & " +:+ AE_O_A_caps +:+ "_2!")
  = "rock" +:+ ae_o_a_small +:+ "2".
Proof. reflexivity. Qed.

Example int_examples :
  int_of_str "999" = Some 999 /\ int_of_str " -0_7 " = Some (-7)
  /\ int_of_str "1__0" = None /\ int_of_str "+ 5" = None
  /\ int_of_str "" = None /\ int_of_str "0" = Some 0
  /\ int_of_str "abc" = None.
Proof. repeat split; reflexivity. Qed.

(** ** Show resolver *)

Lemma find_show_at_bound fuel st new_gen gen show strict depth :
  (MAX_RECURSION_DEPTH <= depth)%nat ->
  find_show (S fuel) st new_gen gen show strict depth
  = Some (Raise RuntimeError).
Proof.
  intros H. cbn [find_show].
  destruct (Nat.leb_spec MAX_RECURSION_DEPTH depth) as [_|Hlt]; [reflexivity|].
  lia.
Qed.

(** The guard of the source, not the fuel, ends the recursion: a call at
    depth [depth] completes within [MAX_RECURSION_DEPTH - depth + 1] nested
    calls. *)
Lemma find_show_completes fuel : forall st new_gen gen show strict depth,
  (MAX_RECURSION_DEPTH - depth < fuel)%nat ->
  exists r, find_show fuel st new_gen gen show strict depth = Some r.
Proof.
  induction fuel as [|fuel IH]; intros st new_gen gen show strict depth Hfuel;
    [lia|].
  destruct (Nat.leb_spec MAX_RECURSION_DEPTH depth) as [Hge|Hlt].
  { rewrite find_show_at_bound by exact Hge. eauto. }
  cbn [find_show].
  destruct (Nat.leb_spec MAX_RECURSION_DEPTH depth) as [Hge|_]; [lia|].
  cbv zeta.
  destruct (negb (truthy (if strict then None else int show))); [|eauto].
  destruct (get_show_id_by_name gen show) as [id|e]; [eauto|].
  destruct e; eauto.
  all: destruct show as [s|z]; eauto.
  all: destruct (custom_url_lookup _ _); eauto.
  all: apply IH; lia.
Qed.

(** More fuel does not change a result. *)
Lemma find_show_fuel_mono fuel : forall fuel' st new_gen gen show strict depth r,
  (fuel <= fuel')%nat ->
  find_show fuel st new_gen gen show strict depth = Some r ->
  find_show fuel' st new_gen gen show strict depth = Some r.
Proof.
  induction fuel as [|fuel IH];
    intros fuel' st new_gen gen show strict depth r Hle H; [discriminate|].
  destruct fuel' as [|fuel']; [lia|].
  cbn [find_show] in *.
  destruct (MAX_RECURSION_DEPTH <=? depth)%nat; [exact H|].
  cbv zeta in *.
  destruct (negb (truthy (if strict then None else int show))); [|exact H].
  destruct (get_show_id_by_name gen show) as [id|e]; [exact H|].
  destruct e; try exact H.
  all: destruct show as [s|z]; try exact H.
  all: destruct (custom_url_lookup _ _); try exact H.
  all: apply IH; [lia|exact H].
Qed.

(** When the nested calls allowed below the bound do not complete the
    resolution, one more call reaches the guard. *)
Lemma find_show_exhausted fuel : forall st new_gen gen show strict depth,
  (fuel + depth = MAX_RECURSION_DEPTH)%nat ->
  find_show fuel st new_gen gen show strict depth = None ->
  find_show (S fuel) st new_gen gen show strict depth
  = Some (Raise RuntimeError).
Proof.
  induction fuel as [|fuel IH]; intros st new_gen gen show strict depth Hd H.
  { apply find_show_at_bound. lia. }
  remember (S fuel) as n eqn:En.
  cbn [find_show]. rewrite En in H. cbn [find_show] in H.
  destruct (MAX_RECURSION_DEPTH <=? depth)%nat; [reflexivity|].
  cbv zeta in *.
  destruct (negb (truthy (if strict then None else int show)));
    [|discriminate].
  destruct (get_show_id_by_name gen show) as [id|e]; [discriminate|].
  destruct e; try discriminate.
  all: destruct show as [s|z]; try discriminate.
  all: destruct (custom_url_lookup _ _); try discriminate.
  all: subst n; apply IH; [lia|exact H].
Qed.

(** C4.  For every alias map, generator, token and mode the resolver
    terminates: a call at depth [depth] returns or raises within
    [MAX_RECURSION_DEPTH - depth + 1] nested calls, whatever the alias map
    looks like.  A call that starts at or beyond the bound raises
    RuntimeError, and so does every call whose resolution is not complete
    after the hops that remain below the bound of 20. *)
Theorem find_show_terminates st new_gen gen show strict depth fuel :
  (MAX_RECURSION_DEPTH - depth < fuel)%nat ->
  exists r,
    find_show fuel st new_gen gen show strict depth = Some r
    /\ ((MAX_RECURSION_DEPTH <= depth)%nat -> r = Raise RuntimeError)
    /\ (find_show (MAX_RECURSION_DEPTH - depth) st new_gen gen show strict
          depth = None ->
        r = Raise RuntimeError).
Proof.
  intros Hfuel.
  destruct (find_show_completes fuel st new_gen gen show strict depth Hfuel)
    as [r Hr].
  exists r. split; [exact Hr|]. split.
  - intros Hge. destruct fuel as [|fuel]; [lia|].
    rewrite find_show_at_bound in Hr by exact Hge. congruence.
  - intros Hnone.
    destruct (Nat.leb_spec MAX_RECURSION_DEPTH depth) as [Hge|Hlt].
    + destruct fuel as [|fuel]; [lia|].
      rewrite find_show_at_bound in Hr by exact Hge. congruence.
    + apply find_show_exhausted in Hnone; [|lia].
      apply (find_show_fuel_mono _ fuel) in Hnone; [congruence|lia].
Qed.

(** The cyclic alias map: twenty hops, then RuntimeError. *)
Lemma find_show_terminates_witness :
  find_show 21 cyclic_settings (fun _ => sample_gen) sample_gen (PyStr "A")
    true 0 = Some (Raise RuntimeError).
Proof.
  destruct (find_show_terminates cyclic_settings (fun _ => sample_gen)
              sample_gen (PyStr "A") true 0 21) as (r & Hr & _ & Hcycle).
  - unfold MAX_RECURSION_DEPTH. lia.
  - rewrite Hr. f_equal. apply Hcycle. vm_compute. reflexivity.
Defined.

(** For a token that parses as a non-zero integer the non-strict resolver
    subscripts the catalog with it, and nothing else. *)
Lemma find_show_numeric fuel st new_gen gen show depth z :
  int show = Some z -> z <> 0 -> (depth < MAX_RECURSION_DEPTH)%nat ->
  find_show (S fuel) st new_gen gen show false depth
  = Some (subscript (shows (show_source gen)) (Some z)).
Proof.
  intros Hint Hz Hd. cbn [find_show].
  destruct (Nat.leb_spec MAX_RECURSION_DEPTH depth) as [Hge|_]; [lia|].
  cbv zeta. rewrite Hint. cbn [truthy].
  destruct (Z.eqb_spec z 0) as [->|_]; [contradiction|reflexivity].
Qed.

Lemma find_show_numeric_present fuel st new_gen gen show depth z sh :
  int show = Some z -> z <> 0 -> (depth < MAX_RECURSION_DEPTH)%nat ->
  shows (show_source gen) !! z = Some sh ->
  find_show (S fuel) st new_gen gen show false depth = Some (Ok sh).
Proof.
  intros Hint Hz Hd Hsh. rewrite (find_show_numeric _ _ _ _ _ _ z) by assumption.
  unfold subscript. cbn. rewrite Hsh. reflexivity.
Qed.

Lemma find_show_numeric_absent fuel st new_gen gen show depth z :
  int show = Some z -> z <> 0 -> (depth < MAX_RECURSION_DEPTH)%nat ->
  shows (show_source gen) !! z = None ->
  find_show (S fuel) st new_gen gen show false depth = Some (Raise KeyError).
Proof.
  intros Hint Hz Hd Hsh. rewrite (find_show_numeric _ _ _ _ _ _ z) by assumption.
  unfold subscript. cbn. rewrite Hsh. reflexivity.
Qed.

(** C3.  The code at the two inputs where it departs from the claim.  The
    token "999" parses as an integer that the catalog does not contain: the
    lookup raises KeyError, not NoSuchShowError, and the route /api/url/999,
    which turns NoSuchShowError into 404, answers 500.  The token "0" parses
    as the id of a show the catalog does contain: that show is not
    returned. *)
Theorem numeric_token_resolution :
  (int (PyStr "999") = Some 999
   /\ shows (show_source sample_gen) !! 999 = None
   /\ find_show 21 sample_settings (fun _ => sample_gen) sample_gen
        (PyStr "999") false 0 = Some (Raise KeyError))
  /\ (int (PyStr "0") = Some 0
      /\ shows (show_source sample_gen) !! 0 = Some show_zero
      /\ find_show 21 sample_settings (fun _ => sample_gen) sample_gen
           (PyStr "0") false 0 = Some (Raise NoSuchShowError))
  /\ dispatch <$> api_url_show 21 sample_settings sample_generator "999"
     = Some (ErrorPage 500).
Proof. repeat split; vm_compute; reflexivity. Qed.

Example resolver_examples :
  find_show 21 sample_settings (fun _ => sample_gen) sample_gen
    (PyStr "Daily News") true 0 = Some (Ok daily_news)
  /\ find_show 21 sample_settings (fun _ => sample_gen) sample_gen
       (PyStr " DailyNews-Old ") false 0 = Some (Ok daily_news)
  /\ find_show 21 sample_settings (fun _ => sample_gen) sample_gen
       (PyStr "1") false 0 = Some (Ok daily_news)
  /\ find_show 21 sample_settings (fun _ => sample_gen) sample_gen
       (PyStr "1") true 0 = Some (Raise NoSuchShowError).
Proof. repeat split; vm_compute; reflexivity. Qed.



(** ** HTTP surface *)

Lemma redirect_episode_unknown_show fuel st g db show episode :
  find_show_in_view fuel st g (PyStr show) true
  = Some (Raise NoSuchShowError) ->
  dispatch <$> redirect_episode fuel st g db show episode
  = Some (ErrorPage (if NoSuchShowError_is_ValueError g then 404 else 500)).
Proof.
  intros H. unfold redirect_episode. rewrite H. cbn.
  destruct (NoSuchShowError_is_ValueError g); reflexivity.
Qed.

Lemma redirect_article_unknown_show fuel st g db show article_code :
  find_show_in_view fuel st g (PyStr show) true
  = Some (Raise NoSuchShowError) ->
  dispatch <$> redirect_article fuel st g db show article_code
  = Some (ErrorPage (if NoSuchShowError_is_ValueError g then 404 else 500)).
Proof.
  intros H. unfold redirect_article. rewrite H. cbn.
  destruct (NoSuchShowError_is_ValueError g); reflexivity.
Qed.

Lemma redirect_episode_unknown_code fuel st g db show episode sh :
  find_show_in_view fuel st g (PyStr show) true = Some (Ok sh) ->
  select_original (sound db) episode = None ->
  dispatch <$> redirect_episode fuel st g db show episode
  = Some (ErrorPage 404).
Proof.
  intros H Hsel. unfold redirect_episode, get_original_sound.
  rewrite H, Hsel. reflexivity.
Qed.

Lemma redirect_article_unknown_code fuel st g db show article_code sh :
  find_show_in_view fuel st g (PyStr show) true = Some (Ok sh) ->
  select_original (article db) article_code = None ->
  dispatch <$> redirect_article fuel st g db show article_code
  = Some (ErrorPage 404).
Proof.
  intros H Hsel. unfold redirect_article, get_original_article.
  rewrite H, Hsel. reflexivity.
Qed.

(** The two redirect routes at an unknown show token, under each of the two
    declarations of NoSuchShowError.  The handlers catch ValueError only:
    where NoSuchShowError is a class of its own the exception escapes and
    the client receives 500, where it derives from ValueError the client
    receives 404.  An unknown code under a known show is answered with 404
    either way, and so is the unknown show on the route /api/url/, whose
    handler catches NoSuchShowError by name. *)
Example redirect_routes_by_base_class :
  find_show_in_view 21 sample_settings sample_generator (PyStr "nosuchshow")
    true = Some (Raise NoSuchShowError)
  /\ dispatch <$> redirect_episode 21 sample_settings sample_generator
       sample_db "nosuchshow" "abc" = Some (ErrorPage 500)
  /\ dispatch <$> redirect_article 21 sample_settings sample_generator
       sample_db "nosuchshow" "abc" = Some (ErrorPage 500)
  /\ dispatch <$> redirect_episode 21 sample_settings
       sample_generator_value_error sample_db "nosuchshow" "abc"
     = Some (ErrorPage 404)
  /\ dispatch <$> redirect_article 21 sample_settings
       sample_generator_value_error sample_db "nosuchshow" "abc"
     = Some (ErrorPage 404)
  /\ dispatch <$> redirect_episode 21 sample_settings sample_generator
       sample_db "Daily News" "nosuchcode" = Some (ErrorPage 404)
  /\ dispatch <$> redirect_episode 21 sample_settings sample_generator
       sample_db "Daily News" "abc" = Some (Redirect "http://x/1.mp3" 302)
  /\ dispatch <$> api_url_show 21 sample_settings sample_generator
       "nosuchshow" = Some (ErrorPage 404).
Proof. repeat split; vm_compute; reflexivity. Qed.

(** ** Redirect store: the statements of SQL *)

Lemma existsb_original t u :
  existsb (fun r => String.eqb (original r) u) t = true <-> u ∈ original <$> t.
Proof.
  induction t as [|a t IH]; cbn.
  - split; [discriminate|]. intros H. inversion H.
  - rewrite orb_true_iff, IH, elem_of_cons, String.eqb_eq.
    split; intros [H|H]; auto.
Qed.

Lemma existsb_proxy t c :
  existsb (fun r => String.eqb (proxy r) c) t = true <-> c ∈ proxy <$> t.
Proof.
  induction t as [|a t IH]; cbn.
  - split; [discriminate|]. intros H. inversion H.
  - rewrite orb_true_iff, IH, elem_of_cons, String.eqb_eq.
    split; intros [H|H]; auto.
Qed.

Lemma select_proxy_None t u :
  select_proxy t u = None <-> u ∉ original <$> t.
Proof.
  unfold select_proxy. induction t as [|a t IH]; cbn.
  - split; [|reflexivity]. intros _ H. inversion H.
  - rewrite not_elem_of_cons. destruct (String.eqb_spec (original a) u) as [E|E].
    + split; [discriminate|]. intros [H _]. congruence.
    + rewrite IH. split; [intros H; split; [congruence|exact H]|intros [_ H]; exact H].
Qed.

Lemma select_original_None t c :
  select_original t c = None <-> c ∉ proxy <$> t.
Proof.
  unfold select_original. induction t as [|a t IH]; cbn.
  - split; [|reflexivity]. intros _ H. inversion H.
  - rewrite not_elem_of_cons. destruct (String.eqb_spec (proxy a) c) as [E|E].
    + split; [discriminate|]. intros [H _]. congruence.
    + rewrite IH. split; [intros H; split; [congruence|exact H]|intros [_ H]; exact H].
Qed.

Lemma select_proxy_Some t u p :
  select_proxy t u = Some p -> {| original := u; proxy := p |} ∈ t.
Proof.
  unfold select_proxy. induction t as [|a t IH]; cbn; [discriminate|].
  destruct (String.eqb_spec (original a) u) as [E|E]; cbn.
  - intros [= <-]. subst u. destruct a. left.
  - intros H. right. exact (IH H).
Qed.

(** With unique proxy codes the SELECT by code finds the row it is asked
    for, and with unique originals the SELECT by original does. *)
Lemma select_original_stored t r :
  NoDup (proxy <$> t) -> r ∈ t -> select_original t (proxy r) = Some (original r).
Proof.
  unfold select_original. induction t as [|a t IH]; cbn.
  - intros _ H. inversion H.
  - rewrite NoDup_cons, elem_of_cons. intros [Ha Ht] [->|Hr].
    + rewrite String.eqb_refl. reflexivity.
    + destruct (String.eqb_spec (proxy a) (proxy r)) as [E|E]; [|auto].
      exfalso. apply Ha. rewrite E. apply list_elem_of_fmap_2. exact Hr.
Qed.

Lemma select_proxy_stored t r :
  NoDup (original <$> t) -> r ∈ t -> select_proxy t (original r) = Some (proxy r).
Proof.
  unfold select_proxy. induction t as [|a t IH]; cbn.
  - intros _ H. inversion H.
  - rewrite NoDup_cons, elem_of_cons. intros [Ha Ht] [->|Hr].
    + rewrite String.eqb_refl. reflexivity.
    + destruct (String.eqb_spec (original a) (original r)) as [E|E]; [|auto].
      exfalso. apply Ha. rewrite E. apply list_elem_of_fmap_2. exact Hr.
Qed.

Lemma sql_insert_Ok t u c :
  u ∉ original <$> t -> c ∉ proxy <$> t ->
  sql_insert t u c = Ok (t ++ [{| original := u; proxy := c |}]).
Proof.
  intros Hu Hc. unfold sql_insert.
  rewrite <- existsb_original in Hu. rewrite <- existsb_proxy in Hc.
  apply not_true_is_false in Hu, Hc. rewrite Hu, Hc. reflexivity.
Qed.

Lemma sql_insert_Raise t u c :
  u ∈ original <$> t \/ c ∈ proxy <$> t ->
  sql_insert t u c = Raise IntegrityError.
Proof.
  intros H. unfold sql_insert.
  destruct H as [H|H]; [apply existsb_original in H|apply existsb_proxy in H];
    rewrite H; [|rewrite orb_true_r]; reflexivity.
Qed.

(** The two outcomes of an INSERT. *)
Lemma sql_insert_cases t u c :
  (sql_insert t u c = Ok (t ++ [{| original := u; proxy := c |}])
   /\ (u ∉ original <$> t) /\ (c ∉ proxy <$> t))
  \/ (sql_insert t u c = Raise IntegrityError
      /\ (u ∈ original <$> t \/ c ∈ proxy <$> t)).
Proof.
  destruct (decide (u ∈ original <$> t)) as [Hu|Hu].
  { right. split; [apply sql_insert_Raise|]; auto. }
  destruct (decide (c ∈ proxy <$> t)) as [Hc|Hc].
  { right. split; [apply sql_insert_Raise|]; auto. }
  left. split; [apply sql_insert_Ok|]; auto.
Qed.

Lemma table_unique_insert t u c :
  table_unique t -> u ∉ original <$> t -> c ∉ proxy <$> t ->
  table_unique (t ++ [{| original := u; proxy := c |}]).
Proof.
  intros [Ho Hp] Hu Hc. split; rewrite fmap_app; apply NoDup_app; cbn.
  - split; [exact Ho|]. split; [|apply NoDup_singleton].
    intros x Hx ->%list_elem_of_singleton. contradiction.
  - split; [exact Hp|]. split; [|apply NoDup_singleton].
    intros x Hx ->%list_elem_of_singleton. contradiction.
Qed.

Lemma select_proxy_snoc t u c :
  u ∉ original <$> t ->
  select_proxy (t ++ [{| original := u; proxy := c |}]) u = Some c.
Proof.
  unfold select_proxy. induction t as [|a t IH]; cbn.
  - intros _. rewrite String.eqb_refl. reflexivity.
  - rewrite not_elem_of_cons. intros [Ha Ht].
    destruct (String.eqb_spec (original a) u) as [E|E]; [congruence|auto].
Qed.

Lemma select_original_snoc t u c :
  c ∉ proxy <$> t ->
  select_original (t ++ [{| original := u; proxy := c |}]) c = Some u.
Proof.
  unfold select_original. induction t as [|a t IH]; cbn.
  - intros _. rewrite String.eqb_refl. reflexivity.
  - rewrite not_elem_of_cons. intros [Ha Ht].
    destruct (String.eqb_spec (proxy a) c) as [E|E]; [congruence|auto].
Qed.

(** ** Redirect store: the hooks, one call at a time *)

(** C10.  The original recovered for a proxy code is the same whatever show
    is passed: get_original_sound and get_original_article look the code up
    and do not consult their show argument. *)
Theorem original_independent_of_show db (s1 s2 : Show) (code : string) :
  get_original_sound db s1 code = get_original_sound db s2 code
  /\ get_original_article db s1 code = get_original_article db s2 code.
Proof. split; reflexivity. Qed.

Lemma get_redirect_article_hit fuel st uuid db u ep C :
  select_proxy (article db) u = Some C ->
  get_redirect_article (S fuel) st uuid db u ep
  = Some (Ok (proxy_url st redirect_article_rule (show ep) C), db).
Proof. intros H. cbn [get_redirect_article]. rewrite H. reflexivity. Qed.

(** The retry loop of the article hook: when the [k]-th identifier is not
    taken, the call returns within [k + 1] attempts, with the first
    identifier that is not taken, and has stored the row. *)
Lemma get_redirect_article_miss k : forall st uuid db u ep,
  select_proxy (article db) u = None ->
  uuid k ∉ proxy <$> article db ->
  exists j, (j <= k)%nat
    /\ (uuid j ∉ proxy <$> article db)
    /\ (forall i, (i < j)%nat -> uuid i ∈ proxy <$> article db)
    /\ get_redirect_article (S k) st uuid db u ep
       = Some (Ok (proxy_url st redirect_article_rule (show ep) (uuid j)),
               {| sound := sound db;
                  article := article db
                               ++ [{| original := u; proxy := uuid j |}] |}).
Proof.
  induction k as [|k IH]; intros st uuid db u ep Hsel Hfresh.
  - exists O. split; [lia|]. split; [exact Hfresh|]. split; [intros i Hi; lia|].
    cbn [get_redirect_article]. rewrite Hsel. cbv zeta.
    rewrite sql_insert_Ok; [reflexivity| |exact Hfresh].
    apply select_proxy_None, Hsel.
  - destruct (sql_insert_cases (article db) u (uuid O))
      as [(Hins & _ & Hc)|(Hins & Htaken)].
    + exists O. split; [lia|]. split; [exact Hc|]. split; [intros i Hi; lia|].
      cbn [get_redirect_article]. rewrite Hsel. cbv zeta. rewrite Hins.
      reflexivity.
    + destruct Htaken as [Hu|Hc]; [apply select_proxy_None in Hsel; contradiction|].
      destruct (IH st (fun n => uuid (S n)) db u ep Hsel Hfresh)
        as (j & Hj & Hfj & Hbefore & Hrun).
      exists (S j). split; [lia|]. split; [exact Hfj|]. split.
      * intros [|i] Hi; [exact Hc|]. apply Hbefore. lia.
      * remember (S k) as n. cbn [get_redirect_article]. rewrite Hsel.
        cbv zeta. rewrite Hins. subst n. exact Hrun.
Qed.

Lemma round_trip_sound st db u ep sh new_uri new_uri' :
  table_unique (sound db) ->
  (select_proxy (sound db) u = None -> new_uri ∉ proxy <$> sound db) ->
  exists C db',
    get_redirect_sound st new_uri db u ep
    = (Ok (proxy_url st redirect_episode_rule (show ep) C), db')
    /\ get_redirect_sound st new_uri' db' u ep
       = (Ok (proxy_url st redirect_episode_rule (show ep) C), db')
    /\ get_original_sound db' sh C = Ok u.
Proof.
  intros [_ Hp] Hfresh. unfold get_redirect_sound, get_original_sound.
  destruct (select_proxy (sound db) u) as [C|] eqn:Hsel.
  - exists C, db. rewrite Hsel. split; [reflexivity|]. split; [reflexivity|].
    apply select_proxy_Some in Hsel.
    apply (select_original_stored _ _ Hp) in Hsel. cbn in Hsel.
    rewrite Hsel. reflexivity.
  - specialize (Hfresh eq_refl). apply select_proxy_None in Hsel.
    rewrite (sql_insert_Ok _ _ _ Hsel Hfresh).
    eexists new_uri, _. split; [reflexivity|]. cbn [sound].
    rewrite (select_proxy_snoc _ _ _ Hsel).
    rewrite (select_original_snoc _ _ _ Hfresh). auto.
Qed.

Lemma round_trip_article st db u ep sh uuid uuid' k fuel' :
  table_unique (article db) ->
  (select_proxy (article db) u = None -> uuid k ∉ proxy <$> article db) ->
  exists C db',
    get_redirect_article (S k) st uuid db u ep
    = Some (Ok (proxy_url st redirect_article_rule (show ep) C), db')
    /\ get_redirect_article (S fuel') st uuid' db' u ep
       = Some (Ok (proxy_url st redirect_article_rule (show ep) C), db')
    /\ get_original_article db' sh C = Ok u.
Proof.
  intros [_ Hp] Hfresh. unfold get_original_article.
  destruct (select_proxy (article db) u) as [C|] eqn:Hsel.
  - exists C, db. rewrite !(get_redirect_article_hit _ _ _ _ _ _ C) by exact Hsel.
    split; [reflexivity|]. split; [reflexivity|].
    apply select_proxy_Some in Hsel.
    apply (select_original_stored _ _ Hp) in Hsel. cbn in Hsel.
    rewrite Hsel. reflexivity.
  - destruct (get_redirect_article_miss k st uuid db u ep Hsel (Hfresh eq_refl))
      as (j & _ & Hfj & _ & Hrun).
    apply select_proxy_None in Hsel.
    eexists (uuid j), _. split; [exact Hrun|]. split.
    + apply get_redirect_article_hit. cbn [article].
      apply select_proxy_snoc, Hsel.
    + cbn [article]. rewrite (select_original_snoc _ _ _ Hfj). reflexivity.
Qed.

(** The round trip where no INSERT fails, for the sound table and for the
    article table.  In a database that satisfies the schema constraints, and
    with an identifier from shortuuid that is not a stored code when a row
    has to be created (for the article hook: with such an identifier among
    those of the nested calls allowed), a call for [u] returns a code C, a
    second call for [u] returns the same C and leaves the database as it is,
    and the lookup of C returns [u]. *)
Theorem redirect_store_round_trip st db u ep sh :
  db_unique db ->
  (forall new_uri new_uri',
      (select_proxy (sound db) u = None -> new_uri ∉ proxy <$> sound db) ->
      exists C db',
        get_redirect_sound st new_uri db u ep
        = (Ok (proxy_url st redirect_episode_rule (show ep) C), db')
        /\ get_redirect_sound st new_uri' db' u ep
           = (Ok (proxy_url st redirect_episode_rule (show ep) C), db')
        /\ get_original_sound db' sh C = Ok u)
  /\ (forall uuid uuid' k fuel',
         (select_proxy (article db) u = None ->
          uuid k ∉ proxy <$> article db) ->
         exists C db',
           get_redirect_article (S k) st uuid db u ep
           = Some (Ok (proxy_url st redirect_article_rule (show ep) C), db')
           /\ get_redirect_article (S fuel') st uuid' db' u ep
              = Some (Ok (proxy_url st redirect_article_rule (show ep) C), db')
           /\ get_original_article db' sh C = Ok u).
Proof.
  intros [Hs Ha]. split.
  - intros new_uri new_uri'. apply round_trip_sound. exact Hs.
  - intros uuid uuid' k fuel'. apply round_trip_article. exact Ha.
Qed.

Lemma redirect_store_round_trip_witness :
  exists C db',
    get_redirect_sound sample_settings "xyz" sample_db "http://x/2.mp3"
      sample_episode
    = (Ok (proxy_url sample_settings redirect_episode_rule daily_news C), db')
    /\ get_redirect_sound sample_settings "other" db' "http://x/2.mp3"
         sample_episode
       = (Ok (proxy_url sample_settings redirect_episode_rule daily_news C), db')
    /\ get_original_sound db' show_zero C = Ok "http://x/2.mp3".
Proof.
  destruct (redirect_store_round_trip sample_settings sample_db
              "http://x/2.mp3" sample_episode show_zero) as [Hsound _].
  - repeat split; cbn; compute_done.
  - apply (Hsound "xyz" "other"). intros _. cbn. compute_done.
Defined.

(** C6.  The code at a round trip whose first call is handed a code that
    is already stored.  get_redirect_sound returns no code for the original:
    it raises IntegrityError, stores nothing, a second call with the same
    identifier fails alike, and the code in question resolves to another
    original.  get_redirect_article at the same collision retries: it returns
    the next code, a second call returns that code again and changes
    nothing, and the lookup of the code returns the original. *)
Theorem round_trip_breaks_on_collision :
  (get_redirect_sound sample_settings "abc" sample_db "http://x/2.mp3"
     sample_episode = (Raise IntegrityError, sample_db)
   /\ select_proxy (sound sample_db) "http://x/2.mp3" = None
   /\ get_original_sound sample_db daily_news "abc" = Ok "http://x/1.mp3")
  /\ (let db' := {| sound := sound sample_db;
                    article := article sample_db
                      ++ [{| original := "http://x/2.html"; proxy := "abd" |}] |} in
      get_redirect_article 2 sample_settings colliding_uuid sample_db
        "http://x/2.html" sample_episode
      = Some (Ok (proxy_url sample_settings redirect_article_rule daily_news
                    "abd"), db')
      /\ get_redirect_article 2 sample_settings colliding_uuid db'
           "http://x/2.html" sample_episode
         = Some (Ok (proxy_url sample_settings redirect_article_rule
                       daily_news "abd"), db')
      /\ get_original_article db' daily_news "abd" = Ok "http://x/2.html").
Proof. repeat split; vm_compute; reflexivity. Qed.

(** The sound hook has no handler for the failed INSERT: when the row is
    missing and the identifier is taken, IntegrityError escapes. *)
Lemma get_redirect_sound_conflict st db u ep new_uri :
  select_proxy (sound db) u = None ->
  new_uri ∈ proxy <$> sound db ->
  get_redirect_sound st new_uri db u ep = (Raise IntegrityError, db).
Proof.
  intros Hsel Htaken. unfold get_redirect_sound. rewrite Hsel.
  rewrite sql_insert_Raise by (right; exact Htaken). reflexivity.
Qed.

(** C1.  The code at an INSERT that fails.  When the generated code is
    already stored, get_redirect_sound raises IntegrityError and stores
    nothing, where get_redirect_article retries and returns the next code.
    When two calls for one original both miss in the SELECT, the second
    INSERT fails: the sound call ends with IntegrityError, the article call
    goes back to its SELECT and returns the stored code. *)
Theorem insert_conflict_sound_and_article :
  get_redirect_sound sample_settings "abc" sample_db "http://x/2.mp3"
    sample_episode = (Raise IntegrityError, sample_db)
  /\ get_redirect_article 2 sample_settings colliding_uuid sample_db
       "http://x/2.html" sample_episode
     = Some (Ok (proxy_url sample_settings redirect_article_rule daily_news
                   "abd"),
             {| sound := sound sample_db;
                article := article sample_db
                  ++ [{| original := "http://x/2.html"; proxy := "abd" |}] |})
  /\ call_pc <$> sys_calls
       (run sample_settings lost_race
          {| sys_db := empty_db;
             sys_calls := calls_for sound_link 2 "http://x/2.mp3" |})
     = [returned (proxy_url sample_settings redirect_episode_rule daily_news
                    "c1");
        raised IntegrityError]
  /\ call_pc <$> sys_calls
       (run sample_settings (lost_race ++ [(1%nat, "c3")])
          {| sys_db := empty_db;
             sys_calls := calls_for article_link 2 "http://x/2.html" |})
     = [returned (proxy_url sample_settings redirect_article_rule daily_news
                    "c1");
        returned (proxy_url sample_settings redirect_article_rule daily_news
                    "c1")].
Proof. repeat split; vm_compute; reflexivity. Qed.

(** ** Redirect store: concurrent calls *)

Lemma table_of_set_table_same k t db : table_of k (set_table k t db) = t.
Proof. destruct k; reflexivity. Qed.

Lemma table_of_set_table k k' t db :
  k <> k' -> table_of k (set_table k' t db) = table_of k db.
Proof. destruct k, k'; intros H; try reflexivity; contradiction. Qed.

Lemma db_unique_set_table k t db :
  db_unique db -> table_unique t -> db_unique (set_table k t db).
Proof. intros [Hs Ha] Ht. destruct k; split; assumption. Qed.

Lemma db_unique_table_of k db : db_unique db -> table_unique (table_of k db).
Proof. intros [Hs Ha]. destruct k; assumption. Qed.

(** What one statement of one call does to the call and to the database. *)
Lemma call_step_inv st new_uri c db c' db' :
  call_step st new_uri c db = (c', db') ->
  call_kind c' = call_kind c
  /\ call_original c' = call_original c
  /\ (db_unique db -> db_unique db')
  /\ (forall k r, r ∈ table_of k db -> r ∈ table_of k db')
  /\ (forall v, call_pc c' = returned v ->
        call_pc c = returned v
        \/ {| original := call_original c; proxy := url_code v |}
             ∈ table_of (call_kind c) db')
  /\ (forall e, call_pc c' = raised e ->
        call_pc c = raised e \/ call_kind c = sound_link).
Proof.
  unfold call_step.
  destruct (call_pc c) as [| |v0|e0] eqn:Hpc.
  - destruct (select_proxy _ _) as [row0|] eqn:Hsel; intros [= <- <-]; cbn;
      split_and!; try done.
    intros v [= <-]. right. cbn. apply select_proxy_Some, Hsel.
  - destruct (sql_insert_cases (table_of (call_kind c) db) (call_original c)
                new_uri) as [(Hins & Hu & Hc)|(Hins & _)]; rewrite Hins.
    + intros [= <- <-]; cbn. split_and!; try done.
      * intros Hdb. apply db_unique_set_table; [exact Hdb|].
        apply table_unique_insert;
          [apply db_unique_table_of, Hdb|exact Hu|exact Hc].
      * intros k r Hr. destruct (decide (k = call_kind c)) as [->|Hk].
        -- rewrite table_of_set_table_same. apply elem_of_app. left. exact Hr.
        -- rewrite table_of_set_table by exact Hk. exact Hr.
      * intros v [= <-]. right. cbn. rewrite table_of_set_table_same.
        apply elem_of_app. right. left.
    + destruct (call_kind c) eqn:Hk; intros [= <- <-]; cbn;
        split_and!; try done; auto.
  - intros [= <- <-]. rewrite Hpc. split_and!; auto.
  - intros [= <- <-]. rewrite Hpc. split_and!; auto.
Qed.

Lemma sched_step_ok st s ev : system_ok s -> system_ok (sched_step st s ev).
Proof.
  intros (Hdb & Hret & Hart). unfold sched_step.
  destruct (sys_calls s !! ev.1) as [c|] eqn:Hc;
    [|exact (conj Hdb (conj Hret Hart))].
  destruct (call_step st ev.2 c (sys_db s)) as [c' db'] eqn:Hstep.
  destruct (call_step_inv _ _ _ _ _ _ Hstep)
    as (Hkind & Horig & Huniq & Hmono & Hnew & Hraise).
  split; [exact (Huniq Hdb)|]. split.
  - intros j cj v Hj Hv. cbn in *.
    apply list_lookup_insert_Some in Hj as [(<- & <- & _)|(Hne & Hj)].
    + rewrite Hkind, Horig. destruct (Hnew v Hv) as [Hold|Hrow]; [|exact Hrow].
      apply Hmono. exact (Hret _ _ _ Hc Hold).
    + apply Hmono. exact (Hret _ _ _ Hj Hv).
  - intros j cj e Hj Hk Hpc. cbn in *.
    apply list_lookup_insert_Some in Hj as [(<- & <- & _)|(Hne & Hj)].
    + rewrite Hkind in Hk. destruct (Hraise e Hpc) as [Hold|Hs]; [|congruence].
      exact (Hart _ _ _ Hc Hk Hold).
    + exact (Hart _ _ _ Hj Hk Hpc).
Qed.

Lemma run_ok st sched : forall s, system_ok s -> system_ok (run st sched s).
Proof.
  unfold run. induction sched as [|ev sched IH]; intros s Hs; [exact Hs|].
  cbn. apply IH, sched_step_ok, Hs.
Qed.

Lemma initial_system_ok db calls :
  db_unique db -> Forall (fun c => call_pc c = at_select) calls ->
  system_ok {| sys_db := db; sys_calls := calls |}.
Proof.
  intros Hdb Hcalls. split; [exact Hdb|].
  rewrite Forall_lookup in Hcalls.
  split; intros i c x Hi; cbn in Hi; rewrite (Hcalls i c Hi); discriminate.
Qed.

Lemma empty_db_unique : db_unique empty_db.
Proof. repeat split; constructor. Qed.

Lemma same_proxy_same_row t r1 r2 :
  NoDup (proxy <$> t) -> r1 ∈ t -> r2 ∈ t -> proxy r1 = proxy r2 ->
  original r1 = original r2.
Proof.
  intros Hp H1 H2 E.
  pose proof (select_original_stored t r1 Hp H1) as E1.
  pose proof (select_original_stored t r2 Hp H2) as E2.
  rewrite E in E1. congruence.
Qed.

Lemma same_original_same_row t r1 r2 :
  NoDup (original <$> t) -> r1 ∈ t -> r2 ∈ t -> original r1 = original r2 ->
  proxy r1 = proxy r2.
Proof.
  intros Ho H1 H2 E.
  pose proof (select_proxy_stored t r1 Ho H1) as E1.
  pose proof (select_proxy_stored t r2 Ho H2) as E2.
  rewrite E in E1. congruence.
Qed.

Lemma rows_for_absent t u : u ∉ original <$> t -> rows_for t u = [].
Proof.
  unfold rows_for. induction t as [|a t IH]; [reflexivity|].
  cbn [fmap list_fmap]. rewrite not_elem_of_cons. intros [Ha Ht].
  rewrite filter_cons_False by congruence. exact (IH Ht).
Qed.

(** The primary key: at most one row for an original. *)
Lemma rows_for_at_most_one t u :
  NoDup (original <$> t) -> (List.length (rows_for t u) <= 1)%nat.
Proof.
  unfold rows_for. induction t as [|a t IH]; cbn [fmap list_fmap]; [cbn; lia|].
  rewrite NoDup_cons. intros [Ha Ht].
  destruct (decide (original a = u)) as [E|E].
  - rewrite filter_cons_True by exact E. rewrite E in Ha.
    fold (rows_for t u). rewrite (rows_for_absent t u Ha). cbn. lia.
  - rewrite filter_cons_False by exact E. exact (IH Ht).
Qed.

Lemma rows_for_stored t r :
  r ∈ t -> (1 <= List.length (rows_for t (original r)))%nat.
Proof.
  intros Hr. assert (r ∈ rows_for t (original r)) as Hin.
  { apply list_elem_of_filter. split; [reflexivity|exact Hr]. }
  destruct (rows_for t (original r)); [inversion Hin|cbn; lia].
Qed.

(** C7.  In every state that calls of the two hooks, run in any
    interleaving from the empty database, can reach: no two rows of a table
    share their original, no two rows share their proxy code, and two calls
    on one table that returned for different originals returned different
    codes. *)
Theorem redirect_tables_unique st calls sched :
  Forall (fun c => call_pc c = at_select) calls ->
  let s := run st sched {| sys_db := empty_db; sys_calls := calls |} in
  db_unique (sys_db s)
  /\ forall i j ci cj vi vj,
       sys_calls s !! i = Some ci -> sys_calls s !! j = Some cj ->
       call_kind ci = call_kind cj ->
       call_pc ci = returned vi -> call_pc cj = returned vj ->
       call_original ci <> call_original cj ->
       url_code vi <> url_code vj.
Proof.
  intros Hcalls s.
  destruct (run_ok st sched _ (initial_system_ok _ _ empty_db_unique Hcalls))
    as (Hdb & Hret & _).
  fold s in Hdb, Hret. split; [exact Hdb|].
  intros i j ci cj vi vj Hi Hj Hkind Hvi Hvj Hne Hcode.
  pose proof (Hret _ _ _ Hi Hvi) as Hri.
  pose proof (Hret _ _ _ Hj Hvj) as Hrj.
  rewrite Hkind in Hri.
  apply Hne.
  apply (same_proxy_same_row _ _ _
           (proj2 (db_unique_table_of (call_kind cj) _ Hdb)) Hri Hrj).
  exact Hcode.
Qed.

(** Two calls on the article table for different originals, the second of
    which is first handed the code of the first: two rows, two codes. *)
Lemma redirect_tables_unique_witness :
  let s := run sample_settings second_collides
             {| sys_db := empty_db; sys_calls := two_originals |} in
  article (sys_db s)
  = [{| original := "http://x/1.html"; proxy := "c1" |};
     {| original := "http://x/2.html"; proxy := "c2" |}]
  /\ db_unique (sys_db s)
  /\ url_code (proxy_url sample_settings redirect_article_rule daily_news "c1")
     <> url_code (proxy_url sample_settings redirect_article_rule daily_news
                    "c2").
Proof.
  destruct (redirect_tables_unique sample_settings two_originals
              second_collides ltac:(repeat constructor)) as [Hdb Hcodes].
  split; [vm_compute; reflexivity|]. split; [exact Hdb|].
  apply (Hcodes 0%nat 1%nat
           (with_pc (new_call article_link "http://x/1.html" sample_episode)
              (returned (proxy_url sample_settings redirect_article_rule
                           daily_news "c1")))
           (with_pc (new_call article_link "http://x/2.html" sample_episode)
              (returned (proxy_url sample_settings redirect_article_rule
                           daily_news "c2"))));
    first [vm_compute; reflexivity | discriminate].
Defined.

(** X23.  Calls for the same original, on either table, that return at all
    return the same code, whatever the interleaving, and the table then
    holds exactly one row for that original. *)
Lemma concurrent_calls_agree st db calls sched :
  db_unique db ->
  Forall (fun c => call_pc c = at_select) calls ->
  let s := run st sched {| sys_db := db; sys_calls := calls |} in
  forall i j ci cj vi vj,
    sys_calls s !! i = Some ci -> sys_calls s !! j = Some cj ->
    call_kind ci = call_kind cj -> call_original ci = call_original cj ->
    call_pc ci = returned vi -> call_pc cj = returned vj ->
    url_code vi = url_code vj
    /\ List.length (rows_for (table_of (call_kind ci) (sys_db s))
                 (call_original ci)) = 1%nat.
Proof.
  intros Hdb0 Hcalls s.
  destruct (run_ok st sched _ (initial_system_ok _ _ Hdb0 Hcalls))
    as (Hdb & Hret & _).
  fold s in Hdb, Hret.
  intros i j ci cj vi vj Hi Hj Hkind Horig Hvi Hvj.
  pose proof (Hret _ _ _ Hi Hvi) as Hri.
  pose proof (Hret _ _ _ Hj Hvj) as Hrj.
  rewrite <- Hkind in Hrj.
  destruct (db_unique_table_of (call_kind ci) _ Hdb) as [Ho Hp].
  split.
  - exact (same_original_same_row _ _ _ Ho Hri Hrj Horig).
  - pose proof (rows_for_at_most_one _ (call_original ci) Ho).
    pose proof (rows_for_stored _ _ Hri) as H1. cbn in H1. lia.
Qed.

(** In the interleaving model a call of the article hook never ends with
    an exception: the IntegrityError of a failed INSERT is caught and the
    call starts again.  (Lock time-outs are not part of the model.) *)
Lemma article_calls_never_raise st db calls sched :
  db_unique db ->
  Forall (fun c => call_pc c = at_select) calls ->
  forall i c e,
    sys_calls (run st sched {| sys_db := db; sys_calls := calls |}) !! i
    = Some c ->
    call_kind c = article_link -> call_pc c <> raised e.
Proof.
  intros Hdb0 Hcalls.
  destruct (run_ok st sched _ (initial_system_ok _ _ Hdb0 Hcalls))
    as (_ & _ & Hart).
  exact Hart.
Qed.

(** C5.  The code at three concurrent calls of get_redirect_sound for one
    original, each past its SELECT before the first INSERT: one row is
    stored, the first call returns its code, and the other two end with
    IntegrityError.  Under the same schedule the calls of
    get_redirect_article all return that one code after their retry. *)
Theorem concurrent_sound_calls_lose_race :
  (let s := run sample_settings three_way_race
              {| sys_db := empty_db;
                 sys_calls := calls_for sound_link 3 "http://x/2.mp3" |} in
   sound (sys_db s) = [{| original := "http://x/2.mp3"; proxy := "c1" |}]
   /\ call_pc <$> sys_calls s
      = [returned (proxy_url sample_settings redirect_episode_rule daily_news
                     "c1");
         raised IntegrityError; raised IntegrityError])
  /\ (let s := run sample_settings
                 (three_way_race ++ [(1%nat, "c4"); (2%nat, "c5")])
                 {| sys_db := empty_db;
                    sys_calls := calls_for article_link 3 "http://x/2.mp3" |} in
      article (sys_db s) = [{| original := "http://x/2.mp3"; proxy := "c1" |}]
      /\ call_pc <$> sys_calls s
         = replicate 3
             (returned (proxy_url sample_settings redirect_article_rule
                          daily_news "c1"))).
Proof. repeat split; vm_compute; reflexivity. Qed.

(** *** The scheduler, statement by statement *)

Lemma run_app st sched1 sched2 s :
  run st (sched1 ++ sched2) s = run st sched2 (run st sched1 s).
Proof. unfold run. apply fold_left_app. Qed.

Lemma run_cons st ev sched s :
  run st (ev :: sched) s = run st sched (sched_step st s ev).
Proof. reflexivity. Qed.

Lemma run_nil st s : run st [] s = s.
Proof. reflexivity. Qed.

Lemma sched_step_at st s i new_uri c :
  sys_calls s !! i = Some c ->
  sched_step st s (i, new_uri)
  = {| sys_db := (call_step st new_uri c (sys_db s)).2;
       sys_calls := <[i := (call_step st new_uri c (sys_db s)).1]> (sys_calls s) |}.
Proof.
  intros H. unfold sched_step. cbn [fst snd]. rewrite H.
  destruct (call_step st new_uri c (sys_db s)). reflexivity.
Qed.

Lemma call_step_select_hit st new_uri c db row0 :
  call_pc c = at_select ->
  select_proxy (table_of (call_kind c) db) (call_original c) = Some row0 ->
  call_step st new_uri c db
  = (with_pc c (returned (proxy_url st (rule_of (call_kind c))
                            (show (call_episode c)) row0)), db).
Proof. intros Hpc Hsel. unfold call_step. rewrite Hpc, Hsel. reflexivity. Qed.

Lemma call_step_select_miss st new_uri c db :
  call_pc c = at_select ->
  select_proxy (table_of (call_kind c) db) (call_original c) = None ->
  call_step st new_uri c db = (with_pc c at_insert, db).
Proof. intros Hpc Hsel. unfold call_step. rewrite Hpc, Hsel. reflexivity. Qed.

Lemma call_step_insert_ok st new_uri c db t :
  call_pc c = at_insert ->
  sql_insert (table_of (call_kind c) db) (call_original c) new_uri = Ok t ->
  call_step st new_uri c db
  = (with_pc c (returned (proxy_url st (rule_of (call_kind c))
                            (show (call_episode c)) new_uri)),
     set_table (call_kind c) t db).
Proof. intros Hpc Hins. unfold call_step. rewrite Hpc, Hins. reflexivity. Qed.

Lemma call_step_insert_conflict st new_uri c db :
  call_pc c = at_insert ->
  sql_insert (table_of (call_kind c) db) (call_original c) new_uri
  = Raise IntegrityError ->
  call_step st new_uri c db
  = (with_pc c match call_kind c with
               | sound_link => raised IntegrityError
               | article_link => at_select
               end, db).
Proof.
  intros Hpc Hins. unfold call_step. rewrite Hpc, Hins.
  destruct (call_kind c); reflexivity.
Qed.

(** *** A call that runs alone is the hook itself *)

Lemma sound_call_alone st new_uri db u ep :
  run st [(0%nat, new_uri); (0%nat, new_uri)]
    {| sys_db := db; sys_calls := [new_call sound_link u ep] |}
  = {| sys_db := (get_redirect_sound st new_uri db u ep).2;
       sys_calls :=
         [with_pc (new_call sound_link u ep)
            (outcome_pc (get_redirect_sound st new_uri db u ep).1)] |}.
Proof.
  rewrite !run_cons, run_nil. unfold get_redirect_sound.
  rewrite (sched_step_at st {| sys_db := db |} 0 new_uri
             (new_call sound_link u ep)) by reflexivity.
  cbn [sys_db sys_calls].
  destruct (select_proxy (sound db) u) as [row0|] eqn:Hsel.
  - rewrite (call_step_select_hit _ _ _ _ row0) by (try reflexivity; exact Hsel).
    reflexivity.
  - rewrite call_step_select_miss by (try reflexivity; exact Hsel).
    cbn [fst snd].
    rewrite (sched_step_at st {| sys_db := db |} 0 new_uri
               (with_pc (new_call sound_link u ep) at_insert)) by reflexivity.
    cbn [sys_db sys_calls].
    destruct (sql_insert_cases (sound db) u new_uri)
      as [(Hins & _)|(Hins & _)]; rewrite Hins.
    + rewrite (call_step_insert_ok st new_uri
                 (with_pc (new_call sound_link u ep) at_insert) db _ eq_refl Hins). reflexivity.
    + rewrite (call_step_insert_conflict st new_uri
                 (with_pc (new_call sound_link u ep) at_insert) db eq_refl Hins). reflexivity.
Qed.

Lemma article_call_alone fuel : forall st uuid db u ep r db',
  get_redirect_article fuel st uuid db u ep = Some (r, db') ->
  exists sched,
    Forall (fun ev => ev.1 = 0%nat) sched
    /\ run st sched
         {| sys_db := db; sys_calls := [new_call article_link u ep] |}
       = {| sys_db := db';
            sys_calls :=
              [with_pc (new_call article_link u ep) (outcome_pc r)] |}.
Proof.
  induction fuel as [|fuel IH]; intros st uuid db u ep r db' H; [discriminate|].
  cbn [get_redirect_article] in H. cbv zeta in H.
  destruct (select_proxy (article db) u) as [row0|] eqn:Hsel.
  - injection H as <- <-. exists [(0%nat, "")]. split; [repeat constructor|].
    rewrite run_cons, run_nil.
    rewrite (sched_step_at st {| sys_db := db |} 0 _
               (new_call article_link u ep)) by reflexivity.
    rewrite (call_step_select_hit _ _ _ _ row0) by (try reflexivity; exact Hsel).
    reflexivity.
  - assert (run st [(0%nat, "")]
              {| sys_db := db; sys_calls := [new_call article_link u ep] |}
            = {| sys_db := db;
                 sys_calls := [with_pc (new_call article_link u ep) at_insert] |})
      as Hfirst.
    { rewrite run_cons, run_nil.
      rewrite (sched_step_at st {| sys_db := db |} 0 _
               (new_call article_link u ep)) by reflexivity.
      rewrite call_step_select_miss by (try reflexivity; exact Hsel).
      reflexivity. }
    destruct (sql_insert_cases (article db) u (uuid O))
      as [(Hins & _)|(Hins & _)]; rewrite Hins in H.
    + injection H as <- <-. exists ([(0%nat, "")] ++ [(0%nat, uuid O)]).
      split; [repeat constructor|]. rewrite run_app, Hfirst.
      rewrite run_cons, run_nil.
      rewrite (sched_step_at st {| sys_db := db |} 0 _
                 (with_pc (new_call article_link u ep) at_insert))
        by reflexivity.
      cbn [sys_db sys_calls].
      rewrite (call_step_insert_ok st (uuid O)
                 (with_pc (new_call article_link u ep) at_insert) db _ eq_refl Hins). reflexivity.
    + destruct (IH _ _ _ _ _ _ _ H) as (sched & Hsched & Hrun).
      exists (([(0%nat, "")] ++ [(0%nat, uuid O)]) ++ sched).
      split; [apply Forall_app; split; [repeat constructor|exact Hsched]|].
      rewrite !run_app, Hfirst. rewrite <- Hrun. f_equal.
      rewrite run_cons, run_nil.
      rewrite (sched_step_at st {| sys_db := db |} 0 _
                 (with_pc (new_call article_link u ep) at_insert))
        by reflexivity.
      cbn [sys_db sys_calls].
      rewrite (call_step_insert_conflict st (uuid O)
                 (with_pc (new_call article_link u ep) at_insert) db eq_refl Hins). reflexivity.
Qed.

(** *** Progress of the article hook

    A stored code is never longer than the code built here, so that one is
    new to the table. *)
Lemma string_length_append (s1 s2 : string) :
  String.length (String.append s1 s2)
  = (String.length s1 + String.length s2)%nat.
Proof.
  induction s1 as [|a s1 IH]; [reflexivity|].
  change (S (String.length (String.append s1 s2))
          = S (String.length s1 + String.length s2)).
  congruence.
Qed.

Lemma fresh_code_longer (t : list Row) (c : string) :
  c ∈ proxy <$> t ->
  (String.length c
   < String.length (fold_right (fun r acc => String.append (proxy r) acc)
                      "x" t))%nat.
Proof.
  induction t as [|a t IH]; cbn; [intros H; inversion H|].
  rewrite elem_of_cons, string_length_append.
  intros [->|H]; [|specialize (IH H); lia].
  assert (1 <= String.length
                 (fold_right (fun r acc => String.append (proxy r) acc) "x" t))%nat.
  { clear. induction t as [|b t IH]; cbn; [lia|].
    rewrite string_length_append. lia. }
  lia.
Qed.

Lemma fresh_code_exists (t : list Row) : exists c, c ∉ proxy <$> t.
Proof.
  exists (fold_right (fun r acc => String.append (proxy r) acc) "x" t).
  intros H. apply fresh_code_longer in H. lia.
Qed.

Lemma call_step_returned st new_uri c db v :
  call_pc c = returned v -> call_step st new_uri c db = (c, db).
Proof. intros Hpc. unfold call_step. rewrite Hpc. reflexivity. Qed.

Lemma article_from_select st s i c new_uri :
  sys_calls s !! i = Some c -> call_kind c = article_link ->
  call_pc c = at_select ->
  new_uri ∉ proxy <$> article (sys_db s) ->
  exists v,
    call_pc <$> sys_calls (run st [(i, new_uri); (i, new_uri)] s) !! i
    = Some (returned v).
Proof.
  intros Hi Hk Hpc Hnew.
  pose proof (lookup_lt_Some _ _ _ Hi) as Hlen.
  rewrite !run_cons, run_nil. rewrite (sched_step_at st s i new_uri c Hi).
  destruct (select_proxy (table_of (call_kind c) (sys_db s)) (call_original c))
    as [row0|] eqn:Hsel.
  - rewrite (call_step_select_hit _ _ _ _ row0 Hpc Hsel). cbn [fst snd].
    erewrite sched_step_at by (apply list_lookup_insert_eq, Hlen).
    erewrite call_step_returned by reflexivity.
    cbn [fst snd sys_calls].
    rewrite list_lookup_insert_eq by (rewrite length_insert; exact Hlen).
    eexists. reflexivity.
  - rewrite (call_step_select_miss _ _ _ _ Hpc Hsel). cbn [fst snd].
    erewrite sched_step_at by (apply list_lookup_insert_eq, Hlen).
    cbn [sys_db].
    erewrite call_step_insert_ok; [| reflexivity |].
    + cbn [fst snd sys_calls].
      rewrite list_lookup_insert_eq by (rewrite length_insert; exact Hlen).
      eexists. reflexivity.
    + cbn [with_pc call_kind call_original]. apply sql_insert_Ok.
      * apply select_proxy_None, Hsel.
      * rewrite Hk. exact Hnew.
Qed.


(** *** The sound hook, call after call *)

(** A call of the sound hook keeps the schema constraints and the stored
    rows, and a returned code is the code of a stored row for the
    original. *)
Lemma get_redirect_sound_stores st new_uri db u ep r db' :
  table_unique (sound db) ->
  get_redirect_sound st new_uri db u ep = (r, db') ->
  table_unique (sound db')
  /\ article db' = article db
  /\ (forall row, row ∈ sound db -> row ∈ sound db')
  /\ (forall v, r = Ok v ->
        {| original := u; proxy := url_code v |} ∈ sound db').
Proof.
  intros Huniq. unfold get_redirect_sound.
  destruct (select_proxy (sound db) u) as [row0|] eqn:Hsel.
  - intros [= <- <-]. split_and!; try done.
    intros v [= <-]. apply select_proxy_Some, Hsel.
  - destruct (sql_insert_cases (sound db) u new_uri)
      as [(Hins & Hu & Hc)|(Hins & _)]; rewrite Hins; intros [= <- <-].
    + cbn [sound article]. split_and!; try done.
      * apply table_unique_insert; assumption.
      * intros row Hrow. apply elem_of_app. left. exact Hrow.
      * intros v [= <-]. apply elem_of_app. right. left.
    + split_and!; try done.
Qed.

(** X26.  Two calls of the sound hook, one after the other, for different
    originals return different codes. *)
Lemma sequential_codes_distinct st db u1 u2 ep1 ep2 n1 n2 v1 v2 db1 db2 :
  table_unique (sound db) ->
  get_redirect_sound st n1 db u1 ep1 = (Ok v1, db1) ->
  get_redirect_sound st n2 db1 u2 ep2 = (Ok v2, db2) ->
  u1 <> u2 -> url_code v1 <> url_code v2.
Proof.
  intros Huniq H1 H2 Hne Hcode.
  destruct (get_redirect_sound_stores _ _ _ _ _ _ _ Huniq H1)
    as (Huniq1 & _ & _ & Hrow1).
  destruct (get_redirect_sound_stores _ _ _ _ _ _ _ Huniq1 H2)
    as ([_ Hp2] & _ & Hmono & Hrow2).
  apply Hne.
  exact (same_proxy_same_row _ _ _ Hp2 (Hmono _ (Hrow1 _ eq_refl))
           (Hrow2 _ eq_refl) Hcode).
Qed.

(** * Further properties *)

(** ** Slug normaliser *)

Lemma string_forall_impl (p q : ascii -> bool) (s : string) :
  (forall c, p c = true -> q c = true) ->
  string_forall p s = true -> string_forall q s = true.
Proof.
  intros Hpq. induction s as [|c s IH]; cbn; [reflexivity|].
  intros [Hc Hs]%andb_prop. rewrite (Hpq c Hc), (IH Hs). reflexivity.
Qed.

Lemma lower_alnum_kept_char (c : ascii) :
  lower_alnum c = true -> kept_char c = true.
Proof. destruct c as [[] [] [] [] [] [] [] []]; cbv; congruence. Qed.

(** X1.  Every character of a slug is a letter or digit that lower() leaves
    unchanged: no whitespace, no underscore and no punctuation survives
    get_readable_slug_from, and no character that has a lower-case form of
    its own. *)
Theorem slug_alphabet (s : string) :
  string_forall kept_char (get_readable_slug_from s) = true.
Proof.
  apply (string_forall_impl lower_alnum); [exact lower_alnum_kept_char|].
  apply slug_keeps_lower_alnum.
Qed.

Lemma lower_app (s1 s2 : string) :
  lower (s1 +:+ s2) = lower s1 +:+ lower s2.
Proof.
  induction s1 as [|c s1 IH]; [reflexivity|].
  change (String (lower_char c) (lower (s1 +:+ s2))
          = String (lower_char c) (lower s1 +:+ lower s2)).
  rewrite IH. reflexivity.
Qed.

Lemma re_sub_empty_app (p : ascii -> bool) (s1 s2 : string) :
  re_sub_empty p (s1 +:+ s2) = re_sub_empty p s1 +:+ re_sub_empty p s2.
Proof.
  induction s1 as [|c s1 IH]; [reflexivity|].
  change (re_sub_empty p (String c (s1 +:+ s2))
          = re_sub_empty p (String c s1) +:+ re_sub_empty p s2).
  cbn [re_sub_empty]. destruct (p c); [exact IH|].
  change (String c (re_sub_empty p (s1 +:+ s2))
          = String c (re_sub_empty p s1 +:+ re_sub_empty p s2)).
  rewrite IH. reflexivity.
Qed.

(** X2.  For names over the code points U+0000 to U+00FF, where lower()
    works character by character: the slug of a concatenation is the
    concatenation of the slugs, and a character that is no letter or digit
    can be put anywhere in a name without changing its slug. *)
Theorem slug_concatenation (s1 s2 : string) :
  get_readable_slug_from (s1 +:+ s2)
  = get_readable_slug_from s1 +:+ get_readable_slug_from s2
  /\ forall c, is_alnum c = false ->
       get_readable_slug_from (s1 +:+ String c s2)
       = get_readable_slug_from (s1 +:+ s2).
Proof.
  assert (forall a b, get_readable_slug_from (a +:+ b)
                      = get_readable_slug_from a +:+ get_readable_slug_from b)
    as Happ.
  { intros a b. unfold get_readable_slug_from.
    rewrite lower_app. apply re_sub_empty_app. }
  split; [apply Happ|].
  intros c Hc. rewrite !Happ. f_equal.
  unfold get_readable_slug_from. cbn [lower re_sub_empty].
  replace (remove_non_word (lower_char c)) with true; [reflexivity|].
  revert Hc. destruct c as [[] [] [] [] [] [] [] []]; cbv; congruence.
Qed.

Lemma lower_char_idempotent (c : ascii) :
  lower_char (lower_char c) = lower_char c.
Proof. apply lower_char_fixed, lower_char_not_upper. Qed.

Lemma lower_idempotent (s : string) : lower (lower s) = lower s.
Proof.
  induction s as [|c s IH]; cbn; [reflexivity|].
  rewrite lower_char_idempotent, IH. reflexivity.
Qed.

Lemma space_is_removed (c : ascii) :
  is_space c = true -> remove_non_word (lower_char c) = true.
Proof. destruct c as [[] [] [] [] [] [] [] []]; cbv; congruence. Qed.

Lemma slug_lstrip (s : string) :
  get_readable_slug_from (lstrip is_space s) = get_readable_slug_from s.
Proof.
  unfold get_readable_slug_from.
  induction s as [|c s IH]; cbn [lstrip]; [reflexivity|].
  destruct (is_space c) eqn:E; [|reflexivity].
  cbn [lower re_sub_empty]. rewrite (space_is_removed c E). exact IH.
Qed.

Lemma slug_rstrip (s : string) :
  get_readable_slug_from (rstrip is_space s) = get_readable_slug_from s.
Proof.
  unfold get_readable_slug_from.
  induction s as [|c s IH]; cbn [rstrip]; [reflexivity|].
  destruct (rstrip is_space s) as [|d r] eqn:Er.
  - cbn [lower re_sub_empty] in IH.
    destruct (is_space c) eqn:E.
    + cbn [lower re_sub_empty]. rewrite (space_is_removed c E). exact IH.
    + cbn [lower re_sub_empty]. rewrite <- IH. reflexivity.
  - cbn [lower re_sub_empty] in *. rewrite <- IH. reflexivity.
Qed.

(** X3.  The slug does not see case or surrounding whitespace: the token
    that find_show makes of a name for the alias map, lower(strip(name)),
    has the slug of the name itself. *)
Theorem slug_ignores_case_and_margin (s : string) :
  get_readable_slug_from (lower (strip s)) = get_readable_slug_from s.
Proof.
  transitivity (get_readable_slug_from (strip s)).
  - unfold get_readable_slug_from. rewrite lower_idempotent. reflexivity.
  - unfold strip. rewrite slug_rstrip. apply slug_lstrip.
Qed.

Lemma re_sub_empty_length (p : ascii -> bool) (s : string) :
  (String.length (re_sub_empty p s) <= String.length s)%nat.
Proof.
  induction s as [|c s IH]; cbn; [lia|]. destruct (p c); cbn; lia.
Qed.

Lemma lower_length (s : string) : String.length (lower s) = String.length s.
Proof. induction s as [|c s IH]; cbn; congruence. Qed.

Lemma lower_char_alnum (c : ascii) : is_alnum (lower_char c) = is_alnum c.
Proof. each_char c. Qed.

(** X4.  A slug is never longer than the name, and it has the length of
    the name exactly when the name consists of letters and digits only. *)
Theorem slug_length (s : string) :
  (String.length (get_readable_slug_from s) <= String.length s)%nat
  /\ (String.length (get_readable_slug_from s) = String.length s
      <-> string_forall is_alnum s = true).
Proof.
  unfold get_readable_slug_from. split.
  - rewrite <- (lower_length s). apply re_sub_empty_length.
  - induction s as [|c s IH]; cbn [lower re_sub_empty string_forall];
      [split; reflexivity|].
    rewrite kept_is_alnum, lower_char_alnum.
    pose proof (re_sub_empty_length remove_non_word (lower s)) as Hle.
    rewrite lower_length in Hle.
    destruct (is_alnum c); cbn [negb andb String.length].
    + rewrite <- IH. split; intros H; [injection H as H; exact H|].
      rewrite H. reflexivity.
    + split; [intros H; lia|discriminate].
Qed.

Lemma slug_concatenation_witness :
  get_readable_slug_from ("My" +:+ String " " "Show")
  = get_readable_slug_from ("My" +:+ "Show").
Proof. apply (proj2 (slug_concatenation "My" "Show")). reflexivity. Defined.

(** ** Show resolver *)

Lemma subscript_Ok (d : gmap Z Show) (k : option Z) (sh : Show) :
  subscript d k = Ok sh -> exists id, k = Some id /\ d !! id = Some sh.
Proof.
  unfold subscript. destruct k as [id|]; cbn; [|discriminate].
  destruct (d !! id) as [v|] eqn:E; [|discriminate].
  intros [= <-]. eauto.
Qed.

Lemma subscript_Raise (d : gmap Z Show) (k : option Z) (e : exn) :
  subscript d k = Raise e -> e = KeyError.
Proof.
  unfold subscript. destruct k as [id|]; cbn; [destruct (d !! id)|]; congruence.
Qed.

(** The step of [find_show] that follows an alias. *)
Lemma find_show_alias_step fuel st new_gen gen s (strict : bool) depth v :
  (depth < MAX_RECURSION_DEPTH)%nat ->
  truthy (if strict then @None Z else int (PyStr s)) = false ->
  get_show_id_by_name gen (PyStr s) = Raise KeyError
  \/ get_show_id_by_name gen (PyStr s) = Raise NoSuchShowError ->
  custom_url_lookup (SHOW_CUSTOM_URL st) (lower (strip s)) = Some v ->
  find_show (S fuel) st new_gen gen (PyStr s) strict depth
  = find_show fuel st new_gen (new_gen depth) v false (S depth).
Proof.
  intros Hd Hid Hname Halias. cbn [find_show].
  destruct (Nat.leb_spec MAX_RECURSION_DEPTH depth) as [Hge|_]; [lia|].
  cbv zeta. rewrite Hid. cbn [negb].
  destruct Hname as [-> | ->]; rewrite Halias; reflexivity.
Qed.

(** X5.  find_show does not make shows up: a show it returns is an entry
    of the catalog of the generator it was given, or of a generator it
    constructed on the way. *)
Theorem find_show_returns_catalog_entry fuel :
  forall st new_gen gen show strict depth sh,
    find_show fuel st new_gen gen show strict depth = Some (Ok sh) ->
    exists g id,
      (g = gen \/ exists d, (depth <= d < MAX_RECURSION_DEPTH)%nat
                            /\ g = new_gen d)
      /\ shows (show_source g) !! id = Some sh.
Proof.
  induction fuel as [|fuel IH];
    intros st new_gen gen show strict depth sh H; [discriminate|].
  cbn [find_show] in H.
  destruct (Nat.leb_spec MAX_RECURSION_DEPTH depth) as [Hge|Hlt];
    [discriminate|].
  cbv zeta in H.
  assert (forall k, Some (subscript (shows (show_source gen)) k) = Some (Ok sh) ->
            exists g id,
              (g = gen \/ exists d, (depth <= d < MAX_RECURSION_DEPTH)%nat
                                    /\ g = new_gen d)
              /\ shows (show_source g) !! id = Some sh) as Hsub.
  { intros k [= Hk]. apply subscript_Ok in Hk as (id & _ & Hid).
    exists gen, id. auto. }
  destruct (negb (truthy (if strict then None else int show)));
    [|exact (Hsub _ H)].
  destruct (get_show_id_by_name gen show) as [id|e]; [exact (Hsub _ H)|].
  destruct e; try discriminate.
  all: destruct show as [s|z]; try discriminate.
  all: destruct (custom_url_lookup _ _); try discriminate.
  all: apply IH in H as (g & id & Hg & Hid); exists g, id.
  all: split; [right|exact Hid].
  all: destruct Hg as [->|(d & Hd & ->)]; [exists depth|exists d].
  all: split; [lia|reflexivity].
Qed.

Lemma find_show_returns_catalog_entry_witness :
  exists g id,
    (g = sample_gen
     \/ exists d, (0 <= d < MAX_RECURSION_DEPTH)%nat
                  /\ g = (fun _ : nat => sample_gen) d)
    /\ shows (show_source g) !! id = Some daily_news.
Proof.
  apply (find_show_returns_catalog_entry 21 sample_settings
           (fun _ => sample_gen) sample_gen (PyStr "DailyNews-Old") true 0).
  vm_compute. reflexivity.
Defined.

(** X6.  When the name index of every generator involved fails only with
    KeyError or NoSuchShowError, find_show itself fails only with
    RuntimeError, KeyError, NoSuchShowError or AttributeError.  So the
    handler "except ValueError" of the redirect views catches a failure of
    find_show only if it is NoSuchShowError and only if that class derives
    from ValueError. *)
Theorem find_show_exceptions fuel :
  forall st new_gen gen show strict depth e,
    (forall v, name_index_miss (get_show_id_by_name gen v)) ->
    (forall d v, name_index_miss (get_show_id_by_name (new_gen d) v)) ->
    find_show fuel st new_gen gen show strict depth = Some (Raise e) ->
    find_show_exn e
    /\ forall g, is_ValueError g e = true ->
         e = NoSuchShowError /\ NoSuchShowError_is_ValueError g = true.
Proof.
  assert (forall e, find_show_exn e ->
            find_show_exn e
            /\ forall g, is_ValueError g e = true ->
                 e = NoSuchShowError /\ NoSuchShowError_is_ValueError g = true)
    as Hv.
  { intros e He. split; [exact He|]. intros g.
    destruct He as [->|[->|[->| ->]]]; cbn; try discriminate. auto. }
  induction fuel as [|fuel IH];
    intros st new_gen gen show strict depth e Hgen Hnew H; [discriminate|].
  cbn [find_show] in H.
  destruct (MAX_RECURSION_DEPTH <=? depth)%nat.
  { injection H as <-. apply Hv. left. reflexivity. }
  cbv zeta in H.
  assert (forall k, Some (subscript (shows (show_source gen)) k)
                    = Some (Raise e) ->
            find_show_exn e
            /\ forall g, is_ValueError g e = true ->
                 e = NoSuchShowError /\ NoSuchShowError_is_ValueError g = true)
    as Hsub.
  { intros k [= Hk]. apply subscript_Raise in Hk as ->.
    apply Hv. right. left. reflexivity. }
  destruct (negb (truthy (if strict then None else int show)));
    [|exact (Hsub _ H)].
  pose proof (Hgen show) as Hmiss.
  destruct (get_show_id_by_name gen show) as [id|e0]; [exact (Hsub _ H)|].
  cbn in Hmiss.
  assert (match show with
          | PyInt _ => Some (Raise AttributeError)
          | PyStr s =>
              match custom_url_lookup (SHOW_CUSTOM_URL st) (lower (strip s)) with
              | Some show_id =>
                  find_show fuel st new_gen (new_gen depth) show_id false
                    (S depth)
              | None => Some (Raise NoSuchShowError)
              end
          end = Some (Raise e)) as H'.
  { destruct Hmiss as [-> | ->]; exact H. }
  clear H. destruct show as [s|z].
  - destruct (custom_url_lookup _ _).
    + apply (IH _ _ _ _ _ _ _ (Hnew depth) Hnew H').
    + injection H' as <-. apply Hv. right. right. left. reflexivity.
  - injection H' as <-. apply Hv. right. right. right. reflexivity.
Qed.

Lemma find_show_exceptions_witness :
  find_show_exn NoSuchShowError
  /\ forall g, is_ValueError g NoSuchShowError = true ->
       NoSuchShowError = NoSuchShowError
       /\ NoSuchShowError_is_ValueError g = true.
Proof.
  apply (find_show_exceptions 21 sample_settings (fun _ => other_gen)
           other_gen (PyStr "nosuchshow") true 0 NoSuchShowError).
  - intros v. cbn. left. reflexivity.
  - intros d v. cbn. left. reflexivity.
  - vm_compute. reflexivity.
Defined.

(** X7.  Matching against the alias map ignores the case and the
    surrounding whitespace of the token: two names that the name index does
    not know and that agree after strip and lower resolve alike. *)
Theorem alias_match_insensitive fuel st new_gen gen s1 s2 depth :
  lower (strip s1) = lower (strip s2) ->
  get_show_id_by_name gen (PyStr s1) = Raise KeyError
  \/ get_show_id_by_name gen (PyStr s1) = Raise NoSuchShowError ->
  get_show_id_by_name gen (PyStr s2) = Raise KeyError
  \/ get_show_id_by_name gen (PyStr s2) = Raise NoSuchShowError ->
  find_show fuel st new_gen gen (PyStr s1) true depth
  = find_show fuel st new_gen gen (PyStr s2) true depth.
Proof.
  intros Heq H1 H2.
  destruct fuel as [|fuel]; [reflexivity|].
  cbn [find_show]. destruct (MAX_RECURSION_DEPTH <=? depth)%nat; [reflexivity|].
  cbv zeta. cbn [truthy negb]. rewrite Heq.
  destruct H1 as [-> | ->], H2 as [-> | ->]; reflexivity.
Qed.

Lemma alias_match_insensitive_witness :
  find_show 21 alias_settings (fun _ => other_gen) other_gen
    (PyStr " OLD-Seven") true 0
  = find_show 21 alias_settings (fun _ => other_gen) other_gen
      (PyStr "old-seven  ") true 0.
Proof.
  apply (alias_match_insensitive 21 alias_settings (fun _ => other_gen)
           other_gen " OLD-Seven" "old-seven  " 0).
  - reflexivity.
  - left. reflexivity.
  - left. reflexivity.
Defined.

(** X8.  A legacy alias that maps to a non-zero show id is resolved in one
    hop, by subscripting the catalog of the newly constructed generator (not
    of the generator passed in) with that id; a missing id surfaces as
    KeyError. *)
Theorem alias_to_show_id fuel st new_gen gen s depth z :
  (S depth < MAX_RECURSION_DEPTH)%nat ->
  get_show_id_by_name gen (PyStr s) = Raise KeyError
  \/ get_show_id_by_name gen (PyStr s) = Raise NoSuchShowError ->
  custom_url_lookup (SHOW_CUSTOM_URL st) (lower (strip s)) = Some (PyInt z) ->
  z <> 0 ->
  find_show (S (S fuel)) st new_gen gen (PyStr s) true depth
  = Some (subscript (shows (show_source (new_gen depth))) (Some z)).
Proof.
  intros Hd Hname Halias Hz.
  rewrite (find_show_alias_step _ _ _ _ _ _ _ (PyInt z)); try assumption;
    [|lia|reflexivity].
  apply find_show_numeric; [reflexivity|exact Hz|exact Hd].
Qed.

Lemma alias_to_show_id_witness :
  find_show 2 alias_settings (fun _ => other_gen) sample_gen
    (PyStr " Old-SEVEN ") true 0
  = Some (Ok {| show_id := 7; title := "Seven Up" |}).
Proof.
  rewrite (alias_to_show_id 0 alias_settings (fun _ => other_gen) sample_gen
             " Old-SEVEN " 0 7).
  - vm_compute. reflexivity.
  - unfold MAX_RECURSION_DEPTH. lia.
  - right. reflexivity.
  - reflexivity.
  - discriminate.
Defined.

(** X9.  The bound counts calls, not failures: an alias that is found by
    the call at depth 19, the twentieth of a resolution, is not followed to
    its show.  Whatever the alias maps to, even the id of an existing show,
    the call raises RuntimeError.  (The nested calls are non-strict; the
    token is one that falls through to the name index, as every token that
    is no non-zero integer does.) *)
Theorem alias_at_last_depth fuel st new_gen gen s (strict : bool) depth v :
  S depth = MAX_RECURSION_DEPTH ->
  truthy (if strict then @None Z else int (PyStr s)) = false ->
  get_show_id_by_name gen (PyStr s) = Raise KeyError
  \/ get_show_id_by_name gen (PyStr s) = Raise NoSuchShowError ->
  custom_url_lookup (SHOW_CUSTOM_URL st) (lower (strip s)) = Some v ->
  find_show (S (S fuel)) st new_gen gen (PyStr s) strict depth
  = Some (Raise RuntimeError).
Proof.
  intros Hd Hid Hname Halias.
  rewrite (find_show_alias_step _ _ _ _ _ _ _ v); try assumption; [|lia].
  apply find_show_at_bound. lia.
Qed.

(** A resolution from depth 0 through a chain of twenty aliases that ends in
    the id of an existing show: its twentieth call, non-strict at depth 19,
    finds the last alias, and the resolution ends with RuntimeError. *)
Lemma alias_at_last_depth_witness :
  find_show 21 (chain_settings 19) (fun _ => other_gen) other_gen
    (PyStr (a_name 0)) true 0 = Some (Raise RuntimeError).
Proof.
  transitivity (find_show 2 (chain_settings 19) (fun _ => other_gen)
                  other_gen (PyStr (a_name 19)) false 19).
  - vm_compute. reflexivity.
  - apply (alias_at_last_depth 0 (chain_settings 19) (fun _ => other_gen)
             other_gen (a_name 19) false 19 (PyInt 7)).
    + reflexivity.
    + reflexivity.
    + left. reflexivity.
    + vm_compute. reflexivity.
Defined.

Example alias_chain_one_shorter :
  find_show 21 (chain_settings 18) (fun _ => other_gen) other_gen
    (PyStr (a_name 0)) true 0
  = Some (Ok {| show_id := 7; title := "Seven Up" |}).
Proof. vm_compute. reflexivity. Qed.

(** X10.  An alias that maps to the integer 0 cannot be resolved by id: 0
    is falsy, the name index is asked for the integer, and when it does not
    know it the alias branch calls strip on an int.  The call ends with
    AttributeError, not with NoSuchShowError. *)
Theorem alias_to_zero fuel st new_gen gen s depth :
  (S depth < MAX_RECURSION_DEPTH)%nat ->
  get_show_id_by_name gen (PyStr s) = Raise KeyError
  \/ get_show_id_by_name gen (PyStr s) = Raise NoSuchShowError ->
  custom_url_lookup (SHOW_CUSTOM_URL st) (lower (strip s)) = Some (PyInt 0) ->
  get_show_id_by_name (new_gen depth) (PyInt 0) = Raise KeyError
  \/ get_show_id_by_name (new_gen depth) (PyInt 0) = Raise NoSuchShowError ->
  find_show (S (S fuel)) st new_gen gen (PyStr s) true depth
  = Some (Raise AttributeError).
Proof.
  intros Hd Hname Halias Hzero.
  rewrite (find_show_alias_step _ _ _ _ _ _ _ (PyInt 0)); try assumption;
    [|lia|reflexivity].
  cbn [find_show].
  destruct (Nat.leb_spec MAX_RECURSION_DEPTH (S depth)) as [Hge|_]; [lia|].
  cbv zeta. cbn [int truthy negb Z.eqb].
  destruct Hzero as [-> | ->]; reflexivity.
Qed.

Lemma alias_to_zero_witness :
  find_show 2 alias_settings (fun _ => other_gen) other_gen (PyStr "NIL")
    true 0 = Some (Raise AttributeError).
Proof.
  apply (alias_to_zero 0 alias_settings (fun _ => other_gen) other_gen
           "NIL" 0).
  - unfold MAX_RECURSION_DEPTH. lia.
  - left. reflexivity.
  - reflexivity.
  - left. reflexivity.
Defined.

(** ** The views *)

(** X11.  The URL that /api/url/ returns for a show is the URL that
    /api/slug/ predicts from the show's title, and its show name is
    already a slug: predicting from it again gives the same URL. *)
Theorem api_url_is_predicted_url fuel st g show sh :
  find_show_in_view fuel st g (PyStr show) false = Some (Ok sh) ->
  api_url_show fuel st g show = Some (api_slug_name (title sh))
  /\ api_slug_name (get_feed_slug sh) = api_slug_name (title sh).
Proof.
  intros H. unfold api_url_show, api_slug_name, url_for_feed, get_feed_slug.
  rewrite H. split; [reflexivity|].
  rewrite (slug_fixed_point _ (slug_keeps_lower_alnum (title sh))).
  reflexivity.
Qed.

Lemma api_url_is_predicted_url_witness :
  api_url_show 21 sample_settings sample_generator "dailynews-old"
  = Some (api_slug_name "Daily News")
  /\ api_slug_name (get_feed_slug daily_news) = api_slug_name "Daily News".
Proof.
  apply (api_url_is_predicted_url 21 sample_settings sample_generator
           "dailynews-old" daily_news).
  vm_compute. reflexivity.
Defined.

(** X12.  /api/url/ with a token that parses as a non-zero integer answers
    by the catalog alone: the feed URL of the show with that id, and a
    server error (500, not 404) when the catalog has no such id, because the
    KeyError of the subscript is not the NoSuchShowError the view catches. *)
Theorem api_url_numeric_token fuel st g show z :
  int (PyStr show) = Some z -> z <> 0 ->
  dispatch <$> api_url_show (S fuel) st g show
  = Some match shows (show_source (PodcastFeedGenerator_quiet g O)) !! z with
         | Some sh => FeedUrl (get_feed_slug sh)
         | None => ErrorPage 500
         end.
Proof.
  intros Hint Hz. unfold api_url_show, find_show_in_view.
  rewrite (find_show_numeric _ _ _ _ _ _ z Hint Hz)
    by (unfold MAX_RECURSION_DEPTH; lia).
  unfold subscript. cbn.
  destruct (shows (show_source (PodcastFeedGenerator_quiet g 0)) !! z);
    reflexivity.
Qed.

Lemma api_url_numeric_token_witness :
  dispatch <$> api_url_show 1 sample_settings sample_generator " 999 "
  = Some (ErrorPage 500).
Proof.
  rewrite (api_url_numeric_token 0 sample_settings sample_generator
             " 999 " 999).
  - vm_compute. reflexivity.
  - reflexivity.
  - discriminate.
Defined.

(** X13.  output_feed serves a feed only under the canonical name.  A feed
    page means that find_show resolved the requested name to a show, that
    the name equals the slug of that show's title (and so is a fixed point
    of the slug function), and that the page is that show's generated feed
    with the stylesheet instruction put in, as application/xml, public, with
    a max-age of 3600.  A redirect means that find_show resolved the name to
    a show whose slug differs from the name; it is a 302 to that slug. *)
Theorem output_feed_canonical fuel st g pretty generate_feed style_href
    show_name :
  (forall page,
      output_feed fuel st g pretty generate_feed style_href show_name
      = Some (Ok (FeedOk page)) ->
      exists sh feed,
        find_show fuel st (PodcastFeedGenerator_quiet g) pretty
          (PyStr show_name) true 0 = Some (Ok sh)
        /\ show_name = get_readable_slug_from (title sh)
        /\ get_readable_slug_from show_name = show_name
        /\ generate_feed (show_id sh) = Ok feed
        /\ page = {| page_body :=
                       replace_first newline
                         (stylesheet_instruction style_href) feed;
                     page_content_type := "application/xml";
                     page_max_age := 3600;
                     page_public := true |})
  /\ (forall target status,
         output_feed fuel st g pretty generate_feed style_href show_name
         = Some (Ok (FeedRedirect target status)) ->
         exists sh,
           find_show fuel st (PodcastFeedGenerator_quiet g) pretty
             (PyStr show_name) true 0 = Some (Ok sh)
           /\ target = get_readable_slug_from (title sh)
           /\ target <> show_name
           /\ get_readable_slug_from target = target
           /\ status = 302).
Proof.
  unfold output_feed.
  destruct (find_show fuel st (PodcastFeedGenerator_quiet g) pretty
              (PyStr show_name) true 0) as [[sh|e]|]; cbn.
  - unfold get_feed_slug.
    destruct (String.eqb_spec show_name (get_readable_slug_from (title sh)))
      as [E|E]; cbn.
    + split; [|intros target status; destruct (generate_feed (show_id sh));
                 discriminate].
      intros page.
      destruct (generate_feed (show_id sh)) as [feed|] eqn:Hfeed;
        [|discriminate].
      intros [= <-]. exists sh, feed.
      split_and!; try reflexivity; try exact E; try exact Hfeed.
      rewrite E. apply slug_fixed_point, slug_keeps_lower_alnum.
    + split; [discriminate|]. intros target status [= <- <-].
      exists sh. split_and!; try reflexivity; try congruence.
      apply slug_fixed_point, slug_keeps_lower_alnum.
  - split; [intros page|intros target status];
      destruct (is_NoSuchShowError e); discriminate.
  - split; [intros page|intros target status]; discriminate.
Qed.

Lemma output_feed_canonical_witness :
  exists sh,
    find_show 21 sample_settings (PodcastFeedGenerator_quiet sample_generator)
      sample_gen (PyStr "Daily News") true 0 = Some (Ok sh)
    /\ "dailynews" = get_readable_slug_from (title sh)
    /\ "dailynews" <> "Daily News"
    /\ get_readable_slug_from "dailynews" = "dailynews"
    /\ 302 = 302.
Proof.
  apply (proj2 (output_feed_canonical 21 sample_settings sample_generator
                  sample_gen sample_feed "/static/style.xsl" "Daily News")
           "dailynews" 302).
  vm_compute. reflexivity.
Defined.

Lemma replace_first_absent (old : ascii) (new s : string) :
  string_exists (Ascii.eqb old) s = false -> replace_first old new s = s.
Proof.
  induction s as [|c s IH]; cbn; [reflexivity|].
  intros [Hc Hs]%orb_false_elim. rewrite Ascii.eqb_sym, Hc, (IH Hs).
  reflexivity.
Qed.

Lemma replace_first_found (old : ascii) (new line rest : string) :
  string_exists (Ascii.eqb old) line = false ->
  replace_first old new (line +:+ String old rest) = line +:+ new +:+ rest.
Proof.
  induction line as [|c line IH].
  - intros _. change (replace_first old new (String old rest) = new +:+ rest).
    cbn [replace_first]. rewrite Ascii.eqb_refl. reflexivity.
  - cbn [string_exists]. intros [Hc Hs]%orb_false_elim.
    change (replace_first old new (String c (line +:+ String old rest))
            = String c (line +:+ new +:+ rest)).
    cbn [replace_first]. rewrite Ascii.eqb_sym, Hc, (IH Hs). reflexivity.
Qed.

(** X14.  The stylesheet instruction of output_feed goes in place of the
    first line break of the generated feed and of nothing else: first line,
    instruction, rest.  A feed without any line break is served as it is,
    without the instruction. *)
Theorem output_feed_stylesheet fuel st g pretty generate_feed style_href
    show_name sh feed :
  find_show fuel st (PodcastFeedGenerator_quiet g) pretty (PyStr show_name)
    true 0 = Some (Ok sh) ->
  show_name = get_feed_slug sh ->
  generate_feed (show_id sh) = Ok feed ->
  exists page,
    output_feed fuel st g pretty generate_feed style_href show_name
    = Some (Ok (FeedOk page))
    /\ (string_exists (Ascii.eqb newline) feed = false ->
        page_body page = feed)
    /\ (forall line rest,
           string_exists (Ascii.eqb newline) line = false ->
           feed = line +:+ String newline rest ->
           page_body page
           = line +:+ stylesheet_instruction style_href +:+ rest).
Proof.
  intros Hshow Hname Hfeed. unfold output_feed. rewrite Hshow. cbn.
  rewrite <- Hname, String.eqb_refl. cbn. rewrite Hfeed.
  eexists. split; [reflexivity|]. cbn [page_body]. split.
  - apply replace_first_absent.
  - intros line rest Hline ->. apply replace_first_found, Hline.
Qed.

Lemma output_feed_stylesheet_witness :
  exists page,
    output_feed 21 sample_settings sample_generator slug_gen sample_feed
      "/static/style.xsl" "dailynews"
    = Some (Ok (FeedOk page))
    /\ page_body page
       = "<?xml version='1.0'?>"
         +:+ stylesheet_instruction "/static/style.xsl" +:+ "<rss></rss>".
Proof.
  destruct (output_feed_stylesheet 21 sample_settings sample_generator
              slug_gen sample_feed "/static/style.xsl" "dailynews" daily_news
              ("<?xml version='1.0'?>" +:+ String newline "<rss></rss>"))
    as (page & Hpage & _ & Hbody).
  - vm_compute. reflexivity.
  - reflexivity.
  - reflexivity.
  - exists page. split; [exact Hpage|]. apply Hbody; reflexivity.
Defined.

(** X15.  On the redirect routes the show segment only has to resolve: for
    one code, any two show tokens that find_show resolves, to whatever
    shows, get the same response, on /episode/ and on /artikkel/. *)
Theorem redirect_routes_ignore_show fuel st g db show1 show2 sh1 sh2 code :
  find_show_in_view fuel st g (PyStr show1) true = Some (Ok sh1) ->
  find_show_in_view fuel st g (PyStr show2) true = Some (Ok sh2) ->
  redirect_episode fuel st g db show1 code
  = redirect_episode fuel st g db show2 code
  /\ redirect_article fuel st g db show1 code
     = redirect_article fuel st g db show2 code.
Proof.
  intros H1 H2. unfold redirect_episode, redirect_article.
  rewrite H1, H2. split; reflexivity.
Qed.

Lemma redirect_routes_ignore_show_witness :
  redirect_episode 21 sample_settings sample_generator sample_db
    "Daily News" "abc"
  = redirect_episode 21 sample_settings sample_generator sample_db
      "Zero Hour" "abc".
Proof.
  apply (redirect_routes_ignore_show 21 sample_settings sample_generator
           sample_db "Daily News" "Zero Hour" daily_news show_zero "abc");
    vm_compute; reflexivity.
Defined.

Lemma select_original_Some t c u :
  select_original t c = Some u -> {| original := u; proxy := c |} ∈ t.
Proof.
  unfold select_original. induction t as [|a t IH]; cbn; [discriminate|].
  destruct (String.eqb_spec (proxy a) c) as [E|E]; cbn.
  - intros [= <-]. subst c. destruct a. left.
  - intros H. right. exact (IH H).
Qed.

(** What a call of the article hook leaves behind. *)
Lemma get_redirect_article_stores fuel : forall st uuid db u ep r db',
  table_unique (article db) ->
  get_redirect_article fuel st uuid db u ep = Some (r, db') ->
  table_unique (article db')
  /\ sound db' = sound db
  /\ (forall row, row ∈ article db -> row ∈ article db')
  /\ exists v, r = Ok v
       /\ {| original := u; proxy := url_code v |} ∈ article db'.
Proof.
  induction fuel as [|fuel IH]; intros st uuid db u ep r db' Huniq H;
    [discriminate|].
  cbn [get_redirect_article] in H. cbv zeta in H.
  destruct (select_proxy (article db) u) as [row0|] eqn:Hsel.
  - injection H as <- <-. split_and!; try done.
    eexists. split; [reflexivity|]. apply select_proxy_Some, Hsel.
  - destruct (sql_insert_cases (article db) u (uuid O))
      as [(Hins & Hu & Hc)|(Hins & _)]; rewrite Hins in H.
    + injection H as <- <-. cbn [sound article]. split_and!; try done.
      * apply table_unique_insert; assumption.
      * intros row Hrow. apply elem_of_app. left. exact Hrow.
      * eexists. split; [reflexivity|]. apply elem_of_app. right. left.
    + exact (IH _ _ _ _ _ _ _ Huniq H).
Qed.

(** X16.  The proxy URL works: when a hook has returned a URL for an
    original, a request to the matching route with the code of that URL,
    under any show token that resolves, is answered with
    redirect(original): the 302 that flask builds from exactly the stored
    original (rendering it as a Location header is flask's part). *)
Theorem proxy_url_redirects_to_original fuel st g db u ep show sh :
  db_unique db ->
  find_show_in_view fuel st g (PyStr show) true = Some (Ok sh) ->
  (forall new_uri v db',
      get_redirect_sound st new_uri db u ep = (Ok v, db') ->
      dispatch <$> redirect_episode fuel st g db' show (url_code v)
      = Some (Redirect u 302))
  /\ (forall n uuid v db',
         get_redirect_article n st uuid db u ep = Some (Ok v, db') ->
         dispatch <$> redirect_article fuel st g db' show (url_code v)
         = Some (Redirect u 302)).
Proof.
  intros [Hs Ha] Hshow. split.
  - intros new_uri v db' H.
    destruct (get_redirect_sound_stores _ _ _ _ _ _ _ Hs H)
      as ([_ Hp] & _ & _ & Hrow).
    pose proof (select_original_stored _ _ Hp (Hrow v eq_refl)) as Hsel.
    cbn in Hsel. unfold redirect_episode, get_original_sound.
    rewrite Hshow. cbn. rewrite Hsel. reflexivity.
  - intros n uuid v db' H.
    destruct (get_redirect_article_stores _ _ _ _ _ _ _ _ Ha H)
      as ([_ Hp] & _ & _ & v' & [= <-] & Hrow).
    pose proof (select_original_stored _ _ Hp Hrow) as Hsel.
    cbn in Hsel. unfold redirect_article, get_original_article.
    rewrite Hshow. cbn. rewrite Hsel. reflexivity.
Qed.

Lemma proxy_url_redirects_to_original_witness :
  dispatch <$> redirect_episode 21 sample_settings sample_generator
    {| sound := sound sample_db
                ++ [{| original := "http://x/2.mp3"; proxy := "xyz" |}];
       article := article sample_db |}
    "Zero Hour" "xyz"
  = Some (Redirect "http://x/2.mp3" 302).
Proof.
  destruct (proxy_url_redirects_to_original 21 sample_settings
              sample_generator sample_db "http://x/2.mp3" sample_episode
              "Zero Hour" show_zero) as [Hsound _].
  - repeat split; cbn; compute_done.
  - vm_compute. reflexivity.
  - apply (Hsound "xyz"
             (proxy_url sample_settings redirect_episode_rule daily_news "xyz")).
    vm_compute. reflexivity.
Defined.

(** ** Redirect store *)

(** X17.  The two link kinds do not touch each other's table: a call of
    get_redirect_sound, whatever its outcome, leaves the article table as it
    was, and a call of get_redirect_article leaves the sound table as it
    was. *)
Theorem hooks_keep_to_their_table st db u ep :
  (forall new_uri,
      article (get_redirect_sound st new_uri db u ep).2 = article db)
  /\ (forall fuel uuid r db',
         get_redirect_article fuel st uuid db u ep = Some (r, db') ->
         sound db' = sound db).
Proof.
  split.
  - intros new_uri. unfold get_redirect_sound.
    destruct (select_proxy (sound db) u); [reflexivity|].
    destruct (sql_insert (sound db) u new_uri); reflexivity.
  - intros fuel. induction fuel as [|fuel IH]; intros uuid r db' H;
      [discriminate|].
    cbn [get_redirect_article] in H. cbv zeta in H.
    destruct (select_proxy (article db) u); [injection H as <- <-; reflexivity|].
    destruct (sql_insert_cases (article db) u (uuid O))
      as [(Hins & _)|(Hins & _)]; rewrite Hins in H.
    + injection H as <- <-. reflexivity.
    + exact (IH _ _ _ H).
Qed.

Lemma hooks_keep_to_their_table_witness :
  sound
    {| sound := sound sample_db;
       article := article sample_db
                  ++ [{| original := "http://x/2.html"; proxy := "abd" |}] |}
  = sound sample_db.
Proof.
  apply (proj2 (hooks_keep_to_their_table sample_settings sample_db
                  "http://x/2.html" sample_episode)
           2%nat colliding_uuid
           (Ok (proxy_url sample_settings redirect_article_rule daily_news
                  "abd"))).
  vm_compute. reflexivity.
Defined.

Lemma sched_step_keeps_rows st s ev k r :
  r ∈ table_of k (sys_db s) -> r ∈ table_of k (sys_db (sched_step st s ev)).
Proof.
  intros Hr. unfold sched_step.
  destruct (sys_calls s !! ev.1) as [c|]; [|exact Hr].
  destruct (call_step st ev.2 c (sys_db s)) as [c' db'] eqn:Hstep.
  destruct (call_step_inv _ _ _ _ _ _ Hstep) as (_ & _ & _ & Hmono & _).
  exact (Hmono k r Hr).
Qed.

(** X18.  Rows are permanent.  Whatever calls of the two hooks run, in
    whatever interleaving of their statements, a row that is stored stays
    stored with the same original and the same code: nothing in the module
    updates or deletes. *)
Theorem rows_are_permanent st sched : forall s k r,
  r ∈ table_of k (sys_db s) ->
  r ∈ table_of k (sys_db (run st sched s)).
Proof.
  induction sched as [|ev sched IH]; intros s k r Hr; [exact Hr|].
  rewrite run_cons. apply IH, sched_step_keeps_rows, Hr.
Qed.

Lemma rows_are_permanent_witness :
  {| original := "http://x/1.mp3"; proxy := "abc" |}
    ∈ table_of sound_link
        (sys_db (run sample_settings three_way_race
                   {| sys_db := sample_db;
                      sys_calls := calls_for sound_link 3 "http://x/2.mp3" |})).
Proof.
  apply (rows_are_permanent sample_settings three_way_race
           {| sys_db := sample_db;
              sys_calls := calls_for sound_link 3 "http://x/2.mp3" |}
           sound_link).
  cbn. left.
Defined.



Lemma get_redirect_article_unfold fuel st uuid db u ep :
  get_redirect_article (S fuel) st uuid db u ep
  = match select_proxy (article db) u with
    | Some row0 =>
        Some (Ok (proxy_url st redirect_article_rule (show ep) row0), db)
    | None =>
        match sql_insert (article db) u (uuid O) with
        | Ok t =>
            Some (Ok (proxy_url st redirect_article_rule (show ep) (uuid O)),
                  {| sound := sound db; article := t |})
        | Raise IntegrityError =>
            get_redirect_article fuel st (fun n => uuid (S n)) db u ep
        | Raise e => Some (Raise e, db)
        end
    end.
Proof. reflexivity. Qed.

Lemma get_redirect_article_returns fuel : forall st uuid db u ep r db',
  get_redirect_article fuel st uuid db u ep = Some (r, db') ->
  exists v, r = Ok v.
Proof.
  induction fuel as [|fuel IH]; intros st uuid db u ep r db' H;
    [discriminate|].
  rewrite get_redirect_article_unfold in H.
  destruct (select_proxy (article db) u); [injection H as <- <-; eauto|].
  destruct (sql_insert_cases (article db) u (uuid O))
    as [(Hins & _)|(Hins & _)]; rewrite Hins in H.
  - injection H as <- <-. eauto.
  - exact (IH _ _ _ _ _ _ _ H).
Qed.

Lemma get_redirect_article_exhausted st db u ep fuel : forall uuid,
  get_redirect_article (S fuel) st uuid db u ep = None
  <-> select_proxy (article db) u = None
      /\ forall i, (i <= fuel)%nat -> uuid i ∈ proxy <$> article db.
Proof.
  assert (forall fuel uuid,
            select_proxy (article db) u = None ->
            uuid O ∈ proxy <$> article db ->
            get_redirect_article (S fuel) st uuid db u ep
            = get_redirect_article fuel st (fun n => uuid (S n)) db u ep)
    as Hretry.
  { intros n uuid Hsel Hc. rewrite get_redirect_article_unfold, Hsel.
    rewrite sql_insert_Raise by (right; exact Hc). reflexivity. }
  assert (forall fuel uuid,
            uuid O ∉ proxy <$> article db ->
            get_redirect_article (S fuel) st uuid db u ep <> None)
    as Hdone.
  { intros n uuid Hfresh. rewrite get_redirect_article_unfold.
    destruct (select_proxy (article db) u) eqn:Hsel; [discriminate|].
    rewrite sql_insert_Ok; [discriminate| |exact Hfresh].
    apply select_proxy_None, Hsel. }
  induction fuel as [|fuel IH]; intros uuid.
  - destruct (select_proxy (article db) u) eqn:Hsel.
    { rewrite get_redirect_article_unfold, Hsel.
      split; [discriminate|intros [? _]; discriminate]. }
    destruct (decide (uuid O ∈ proxy <$> article db)) as [Hc|Hfresh].
    + rewrite (Hretry _ _ eq_refl Hc). cbn [get_redirect_article].
      split; [intros _|reflexivity]. split; [reflexivity|].
      intros i Hi. replace i with O by lia. exact Hc.
    + split; [intros H; destruct (Hdone _ _ Hfresh H)|].
      intros [_ Hall]. destruct Hfresh. apply Hall. lia.
  - destruct (select_proxy (article db) u) eqn:Hsel.
    { rewrite get_redirect_article_unfold, Hsel.
      split; [discriminate|intros [? _]; discriminate]. }
    destruct (decide (uuid O ∈ proxy <$> article db)) as [Hc|Hfresh].
    + rewrite (Hretry _ _ eq_refl Hc), (IH (fun n => uuid (S n))). split.
      * intros [_ Hall]. split; [reflexivity|].
        intros [|i] Hi; [exact Hc|]. apply Hall. lia.
      * intros [_ Hall]. split; [reflexivity|].
        intros i Hi. apply (Hall (S i)). lia.
    + split; [intros H; destruct (Hdone _ _ Hfresh H)|].
      intros [_ Hall]. destruct Hfresh. apply Hall. lia.
Qed.



(** X21.  The round trip also closes from the other side: in a table with
    unique originals, the original that a code resolves to is handed that
    very code by the hook, and the hook stores nothing for it. *)
Theorem resolved_original_keeps_its_code st db sh C u :
  db_unique db ->
  (get_original_sound db sh C = Ok u ->
   forall new_uri ep,
     get_redirect_sound st new_uri db u ep
     = (Ok (proxy_url st redirect_episode_rule (show ep) C), db))
  /\ (get_original_article db sh C = Ok u ->
      forall fuel uuid ep,
        get_redirect_article (S fuel) st uuid db u ep
        = Some (Ok (proxy_url st redirect_article_rule (show ep) C), db)).
Proof.
  intros [[Hso _] [Hao _]]. split.
  - unfold get_original_sound.
    destruct (select_original (sound db) C) as [u'|] eqn:Hsel; [|discriminate].
    intros [= ->] new_uri ep. apply select_original_Some in Hsel.
    apply (select_proxy_stored _ _ Hso) in Hsel. cbn in Hsel.
    unfold get_redirect_sound. rewrite Hsel. reflexivity.
  - unfold get_original_article.
    destruct (select_original (article db) C) as [u'|] eqn:Hsel; [|discriminate].
    intros [= ->] fuel uuid ep. apply select_original_Some in Hsel.
    apply (select_proxy_stored _ _ Hao) in Hsel. cbn in Hsel.
    apply get_redirect_article_hit. exact Hsel.
Qed.

Lemma resolved_original_keeps_its_code_witness :
  get_redirect_sound sample_settings "fresh" sample_db "http://x/1.mp3"
    sample_episode
  = (Ok (proxy_url sample_settings redirect_episode_rule daily_news "abc"),
     sample_db).
Proof.
  apply (proj1 (resolved_original_keeps_its_code sample_settings sample_db
                  show_zero "abc" "http://x/1.mp3"
                  ltac:(repeat split; cbn; compute_done))).
  reflexivity.
Defined.

(** X22.  A lookup by code has two outcomes and no other: the original of a
    stored row with that code, or the 404 of abort when no row has the
    code. *)
Theorem get_original_outcomes db sh code :
  ((exists u, get_original_sound db sh code = Ok u
              /\ {| original := u; proxy := code |} ∈ sound db)
   \/ (get_original_sound db sh code = Raise (HTTPException 404)
       /\ code ∉ proxy <$> sound db))
  /\ ((exists u, get_original_article db sh code = Ok u
                 /\ {| original := u; proxy := code |} ∈ article db)
      \/ (get_original_article db sh code = Raise (HTTPException 404)
          /\ code ∉ proxy <$> article db)).
Proof.
  unfold get_original_sound, get_original_article. split.
  - destruct (select_original (sound db) code) as [u|] eqn:Hsel.
    + left. exists u. split; [reflexivity|]. apply select_original_Some, Hsel.
    + right. split; [reflexivity|]. apply select_original_None, Hsel.
  - destruct (select_original (article db) code) as [u|] eqn:Hsel.
    + left. exists u. split; [reflexivity|]. apply select_original_Some, Hsel.
    + right. split; [reflexivity|]. apply select_original_None, Hsel.
Qed.

(** ** Witnesses for the statements about concurrent calls *)

Lemma concurrent_calls_agree_witness :
  url_code (proxy_url sample_settings redirect_article_rule daily_news "c1")
  = url_code (proxy_url sample_settings redirect_article_rule daily_news "c1")
  /\ List.length
       (rows_for
          (table_of article_link
             (sys_db (run sample_settings (lost_race ++ [(1%nat, "c3")])
                        {| sys_db := empty_db;
                           sys_calls :=
                             calls_for article_link 2 "http://x/2.html" |})))
          "http://x/2.html") = 1%nat.
Proof.
  apply (concurrent_calls_agree sample_settings empty_db
           (calls_for article_link 2 "http://x/2.html")
           (lost_race ++ [(1%nat, "c3")]) empty_db_unique
           ltac:(repeat constructor) 0%nat 1%nat
           (with_pc (new_call article_link "http://x/2.html" sample_episode)
              (returned (proxy_url sample_settings redirect_article_rule
                           daily_news "c1")))
           (with_pc (new_call article_link "http://x/2.html" sample_episode)
              (returned (proxy_url sample_settings redirect_article_rule
                           daily_news "c1"))));
    vm_compute; reflexivity.
Defined.


Lemma sequential_codes_distinct_witness : "abc" <> "abd".
Proof.
  apply (sequential_codes_distinct sample_settings sample_db
           "http://x/1.mp3" "http://x/2.mp3" sample_episode sample_episode
           "abd" "abd"
           (proxy_url sample_settings redirect_episode_rule daily_news "abc")
           (proxy_url sample_settings redirect_episode_rule daily_news "abd")
           sample_db
           {| sound := sound sample_db
                       ++ [{| original := "http://x/2.mp3"; proxy := "abd" |}];
              article := article sample_db |}).
  - split; cbn; compute_done.
  - vm_compute. reflexivity.
  - vm_compute. reflexivity.
  - discriminate.
Defined.
